(** * Tasmotizer: serial JSON framing and the flashing worker

    A shallow embedding of the parts of [tasmotizer.py] that frame the
    device's JSON answers ([PinConfigDialog.read_json]), drive the flashing
    worker ([ESPWorker]) and prepare a flashing session ([ProcessDialog]).

    Conventions
    - Python [int] is [Z]; a [bytes]/[QByteArray] value is [list byte];
      a Python [str] is a [string] holding the UTF-8 encoding of the text
      (the brace, CR and LF characters the code looks at are ASCII, so they
      are the same bytes before and after decoding).
    - A Python [dict] is a [gmap]; a missing key raises [KeyError].
    - An attribute that no code path has assigned yet is [None]; reading it
      raises [AttributeError].
    - A method that mutates [self] and may raise is a computation in the
      monad [M S], which returns the object as it is when the method
      returns or raises. *)

From Stdlib Require Import ZArith NArith List Ascii String Bool Lia.
From Stdlib.Strings Require Import Byte.
From Stdlib Require Import HexString DecimalString.
From stdpp Require Import gmap strings.
Import ListNotations.

Local Open Scope Z_scope.
Local Open Scope string_scope.
Local Open Scope list_scope.

(** ** Exceptions and the state-and-exception monad *)

Inductive exn : Type :=
| AttributeError
| KeyError
| UnicodeDecodeError
| JSONDecodeError
| ZeroDivisionError
| NetworkError
| FileNotFoundError
| IsADirectoryError
| ValueError.

Definition M (S A : Type) : Type := S -> S * (exn + A).

Definition ret {S A} (a : A) : M S A := fun s => (s, inr a).

Definition raise {S A} (e : exn) : M S A := fun s => (s, inl e).

Definition bind {S A B} (m : M S A) (k : A -> M S B) : M S B :=
  fun s => match m s with
           | (s', inr a) => k a s'
           | (s', inl e) => (s', inl e)
           end.

Definition gets {S A} (f : S -> A) : M S A := fun s => (s, inr (f s)).

Definition modify {S} (f : S -> S) : M S unit := fun s => (f s, inr tt).

Declare Scope py_scope.
Delimit Scope py_scope with py.
Notation "x <- m ;; k" := (bind m (fun x => k))
  (at level 100, m at next level, right associativity) : py_scope.

(** The exception a call ended with, if any. *)
Definition raised {S A} (r : S * (exn + A)) : option exn :=
  match snd r with inl e => Some e | inr _ => None end.

(** ** Bytes and text *)

(** [len(re.compile(rb'\{').findall(data))]: the pattern is one literal
    byte, so the matches are the occurrences of that byte. *)
Fixpoint count_byte (b : byte) (data : list byte) : Z :=
  match data with
  | [] => 0
  | x :: rest => (if Byte.eqb x b then 1 else 0) + count_byte b rest
  end.

Definition bracket_open : byte := x7b.
Definition bracket_close : byte := x7d.

(** Strict UTF-8, as [str(data, 'utf-8')] checks it: no overlong forms, no
    surrogates, nothing above U+10FFFF. *)
Definition in_range (lo hi : N) (b : byte) : bool :=
  (lo <=? Byte.to_N b)%N && (Byte.to_N b <=? hi)%N.

Definition cont (b : byte) : bool := in_range 128 191 b.

Fixpoint utf8_valid (data : list byte) : bool :=
  match data with
  | [] => true
  | b0 :: r0 =>
    if in_range 0 127 b0 then utf8_valid r0
    else match r0 with
    | [] => false
    | b1 :: r1 =>
      if in_range 194 223 b0 then cont b1 && utf8_valid r1
      else match r1 with
      | [] => false
      | b2 :: r2 =>
        if in_range 224 239 b0 then
          (if in_range 224 224 b0 then in_range 160 191 b1
           else if in_range 237 237 b0 then in_range 128 159 b1
           else cont b1)
          && cont b2 && utf8_valid r2
        else match r2 with
        | [] => false
        | b3 :: r3 =>
          if in_range 240 244 b0 then
            (if in_range 240 240 b0 then in_range 144 191 b1
             else if in_range 244 244 b0 then in_range 128 143 b1
             else cont b1)
            && cont b2 && cont b3 && utf8_valid r3
          else false
        end
      end
    end
  end.

Definition decode_utf8 (data : list byte) : option string :=
  if utf8_valid data then Some (string_of_list_byte data) else None.

(** [s.replace(c, '')] for a one-character [c]. *)
Fixpoint remove_char (c : ascii) (s : string) : string :=
  match s with
  | EmptyString => EmptyString
  | String x r => if Ascii.eqb x c then remove_char c r
                  else String x (remove_char c r)
  end.

Definition CR : ascii := ascii_of_byte x0d.
Definition LF : ascii := ascii_of_byte x0a.

(** [text.replace('\r', '').replace('\n', '')]. *)
Definition strip_newlines (text : string) : string :=
  remove_char LF (remove_char CR text).

(** Whether the character [c] occurs in [s]. *)
Fixpoint occurs (c : ascii) (s : string) : bool :=
  match s with
  | EmptyString => false
  | String x r => Ascii.eqb x c || occurs c r
  end.

(** *** The pattern [\{.*\}]

    [.] matches every character but the line feed and [*] is greedy, so
    within one line the leftmost match starts at the first opening brace
    and ends at the last closing brace after it; nothing after that brace
    can match again in the same line. *)

Fixpoint from_open (s : string) : option string :=
  match s with
  | EmptyString => None
  | String c r => if Ascii.eqb c "{" then Some r else from_open r
  end.

Fixpoint upto_last_close (s : string) : option string :=
  match s with
  | EmptyString => None
  | String c r =>
    match upto_last_close r with
    | Some p => Some (String c p)
    | None => if Ascii.eqb c "}" then Some (String c EmptyString) else None
    end
  end.

Definition match_line (line : string) : option string :=
  match from_open line with
  | Some r => match upto_last_close r with
              | Some p => Some (String "{" p)
              | None => None
              end
  | None => None
  end.

(** The lines of a text, split at line feeds. *)
Fixpoint lines_acc (cur : string) (s : string) : list string :=
  match s with
  | EmptyString => [cur]
  | String c r => if Ascii.eqb c LF then cur :: lines_acc EmptyString r
                  else lines_acc (cur +:+ String c EmptyString) r
  end.

Definition json_match_findall (s : string) : list string :=
  omap match_line (lines_acc EmptyString s).

(** ** PinConfigDialog: the frame accumulator *)

Module PinConfigDialog.

Section WithJson.

(** [json.loads] belongs to the Python library: the parsed value type and
    the parser are parameters; [None] is a [JSONDecodeError]. *)
Variable J : Type.
Variable json_loads : string -> option J.

Record t : Type := {
  brackets : gmap string Z;       (* self.brackets *)
  data : option (list byte);      (* self.data; never assigned in __init__ *)
  jsons : list J;                 (* self.jsons *)
  components : option J;          (* self.components *)
  gpios : option J;               (* self.gpios *)
  read_gpios_connected : bool;    (* components_done -> read_gpios *)
  emitted : nat;                  (* components_done emissions so far *)
  written : list string           (* lines handed to self.port.write *)
}.

Definition set_brackets (b : gmap string Z) (d : t) :=
  {| brackets := b; data := data d; jsons := jsons d;
     components := components d; gpios := gpios d;
     read_gpios_connected := read_gpios_connected d;
     emitted := emitted d; written := written d |}.

Definition set_data (b : list byte) (d : t) :=
  {| brackets := brackets d; data := Some b; jsons := jsons d;
     components := components d; gpios := gpios d;
     read_gpios_connected := read_gpios_connected d;
     emitted := emitted d; written := written d |}.

Definition append_json (v : J) (d : t) :=
  {| brackets := brackets d; data := data d; jsons := jsons d ++ [v];
     components := components d; gpios := gpios d;
     read_gpios_connected := read_gpios_connected d;
     emitted := emitted d; written := written d |}.

Definition port_write (line : string) (d : t) :=
  {| brackets := brackets d; data := data d; jsons := jsons d;
     components := components d; gpios := gpios d;
     read_gpios_connected := read_gpios_connected d;
     emitted := emitted d; written := written d ++ [line] |}.

Definition count_emit (d : t) :=
  {| brackets := brackets d; data := data d; jsons := jsons d;
     components := components d; gpios := gpios d;
     read_gpios_connected := read_gpios_connected d;
     emitted := S (emitted d); written := written d |}.

Definition disconnect_read_gpios (d : t) :=
  {| brackets := brackets d; data := data d; jsons := jsons d;
     components := components d; gpios := gpios d;
     read_gpios_connected := false;
     emitted := emitted d; written := written d |}.

Definition line (cmd : string) : string := cmd +:+ String LF EmptyString.

(** [__init__] assigns none of the attributes [read_json] works on. *)
Definition new : t :=
  {| brackets := ∅; data := None; jsons := []; components := None;
     gpios := None; read_gpios_connected := false; emitted := 0%nat;
     written := [] |}.

(** [read_init_config]: lines 311-324. [self.data] is left as it is. *)
Definition read_init_config (d : t) : t :=
  {| brackets := <["}" := -1]> (<["{" := 0]> ∅);
     data := data d;
     jsons := [];
     components := None;
     gpios := None;
     read_gpios_connected := true;
     emitted := emitted d;
     written := written d ++ [line "GPIOs"] |}.

(** [read_gpios]: lines 326-332. *)
Definition read_gpios : M t unit :=
  (c <- gets components ;;
   _ <- match c with
        | Some _ => modify disconnect_read_gpios
        | None => ret tt
        end ;;
   modify (port_write (line "GPIO")))%py.

(** [self.components_done.emit()]: the connected slot runs before [emit]
    returns. *)
Definition components_done_emit : M t unit :=
  (_ <- modify count_emit ;;
   connected <- gets read_gpios_connected ;;
   if connected : bool then read_gpios else ret tt)%py.

Definition getitem (k : string) : M t Z :=
  fun d => match brackets d !! k with
           | Some v => (d, inr v)
           | None => (d, inl KeyError)
           end.

Definition setitem (k : string) (v : Z) : M t unit :=
  modify (fun d => set_brackets (<[k := v]> (brackets d)) d).

Definition get_data : M t (list byte) :=
  fun d => match data d with
           | Some b => (d, inr b)
           | None => (d, inl AttributeError)
           end.

Definition of_option {A} (e : exn) (o : option A) : M t A :=
  match o with Some a => ret a | None => raise e end.

(** [read_json]: lines 335-355, with [chunk] the result of
    [self.port.readAll()]. The [print] of line 348 only writes to the
    console and is left out. *)
Definition read_json (chunk : list byte) : M t unit :=
  ((* 341 *)
   o <- getitem "{" ;;
   _ <- setitem "{" (o + count_byte bracket_open chunk) ;;
   (* 342-343 *)
   o <- getitem "{" ;;
   _ <- (if (0 <? o)%Z then setitem "}" 0 else ret tt) ;;
   (* 344 *)
   c <- getitem "}" ;;
   _ <- setitem "}" (c + count_byte bracket_close chunk) ;;
   (* 345 *)
   buf <- get_data ;;
   _ <- modify (set_data (buf ++ chunk)) ;;
   (* 346 *)
   o <- getitem "{" ;;
   c <- getitem "}" ;;
   if (o - c =? 0)%Z then
     (* 347 *)
     buf <- get_data ;;
     text <- of_option UnicodeDecodeError (decode_utf8 buf) ;;
     let to_parse := strip_newlines text in
     (* 349-351 *)
     _ <- match json_match_findall to_parse with
          | first :: _ =>
            v <- of_option JSONDecodeError (json_loads first) ;;
            modify (append_json v)
          | [] => ret tt
          end ;;
     (* 352 *)
     _ <- components_done_emit ;;
     (* 355 *)
     modify (set_data [])
   else ret tt)%py.

(** Lines 352-355 on their own: the signal is emitted, its slot runs
    and the buffer is emptied. *)
Definition close_window : M t unit :=
  (_ <- components_done_emit ;; modify (set_data []))%py.


(** The dialog as [__init__] and [read_init_config] leave it: the
    counters are set, [self.data] is not. *)
Definition initial : t := read_init_config new.

Definition open_count (d : t) : option Z := brackets d !! "{".
Definition close_count (d : t) : option Z := brackets d !! "}".

(** The two counters after lines 341-344 have run on [chunk], given
    their values [o] and [c] before. *)
Definition counters_after (o c : Z) (chunk : list byte) : Z * Z :=
  let o' := o + count_byte bracket_open chunk in
  (o', (if (0 <? o')%Z then 0 else c) + count_byte bracket_close chunk).

(** The dialog after lines 341-344 have run on [chunk]. *)
Definition counted (o c : Z) (chunk : list byte) (d : t) : t :=
  set_brackets
    (<["}" := snd (counters_after o c chunk)]>
       (<["{" := fst (counters_after o c chunk)]> (brackets d))) d.

(** The dialog after lines 341-345 have run on [chunk]. *)
Definition accumulated (o c : Z) (buf chunk : list byte) (d : t) : t :=
  set_data (buf ++ chunk)
    (set_brackets
       (<["}" := snd (counters_after o c chunk)]>
          (<["{" := fst (counters_after o c chunk)]> (brackets d))) d).

End WithJson.

Arguments brackets {J}.
Arguments data {J}.
Arguments jsons {J}.
Arguments emitted {J}.
Arguments written {J}.
Arguments open_count {J}.
Arguments close_count {J}.
Arguments counted {J}.
Arguments accumulated {J}.

End PinConfigDialog.


(** The bytes of the text [{"a": {"b": 1}}]. *)
Definition nested_object : list byte :=
  [x7b; x22; x61; x22; x3a; x20;
   x7b; x22; x62; x22; x3a; x20; x31; x7d; x7d].

(** ** Values of keyword dictionaries and command lists *)

Inductive value : Type :=
| VNone
| VBool (b : bool)
| VStr (s : string).

(** Python truth value. *)
Definition truthy (v : value) : bool :=
  match v with
  | VNone => false
  | VBool b => b
  | VStr s => negb (String.eqb s EmptyString)
  end.

(** ** ESPWorker: the flashing worker and its two callers *)

Module ESPWorker.

Record t : Type := {
  command : list value;           (* self.command *)
  _actions : list string;         (* self._actions *)
  _params : gmap string value;    (* self._params *)
  _continue : bool                (* self._continue *)
}.

(** [__init__], lines 36-46. *)
Definition new (port : value) (actions : list string)
    (params : gmap string value) : t :=
  {| command := [VStr "--chip"; VStr "esp8266"; VStr "--port"; port;
                 VStr "--baud"; VStr "115200"];
     _actions := actions;
     _params := params;
     _continue := false |}.

Definition set_continue (b : bool) (w : t) : t :=
  {| command := command w; _actions := _actions w; _params := _params w;
     _continue := b |}.

(** [name in self._actions]. *)
Definition has_action (name : string) (w : t) : bool :=
  existsb (String.eqb name) (_actions w).

Inductive stage : Type := Backup | Write.

(** Modelled from the spec: [esptool.main] of [tasmotizer_esptool] is not
    among the sources; the spec takes the driver as an opaque operation
    that completes or signals a fatal or connection error. This is how a
    call ends; [run] catches the first two exceptions only. *)
Inductive outcome : Type :=
| Returns
| FatalError
| SerialException
| OtherException.

Inductive event : Type :=
| Called (s : stage) (cmd : list value)   (* esptool.main(cmd) entered *)
| Returned (s : stage)                    (* esptool.main returned *)
| Raised (s : stage) (o : outcome)        (* esptool.main raised *)
| Uncaught (e : exn)                      (* run left by an exception *)
| WaitingSignal                           (* self.waiting.emit() *)
| ErrorSignal (o : outcome)               (* self.error.emit(e) *)
| DoneSignal                              (* self.done.emit() *)
| ContinueOkCalled                        (* continue_ok() was called *)
| AbortCalled.                            (* abort() was called *)

(** Where the worker thread stands in [run]. *)
Inductive pc : Type :=
| PcStart        (* before line 50 *)
| PcBackup       (* inside esptool.main, line 56 *)
| PcWaitEnter    (* line 60, entering wait_for_user *)
| PcPoll         (* the loop of lines 77-78 *)
| PcCheck        (* line 62 *)
| PcWrite        (* inside esptool.main, line 68 *)
| PcFinished     (* after line 72 *)
| PcCrashed.     (* run left by an uncaught exception *)

(** The worker object, the thread running [run] on it, and the flag
    shared with the driver. *)
Record world : Type := {
  self : t;
  at_pc : pc;
  continueFlag : bool             (* esptool.sw's flag *)
}.

Definition set_pc (p : pc) (w : world) : world :=
  {| self := self w; at_pc := p; continueFlag := continueFlag w |}.

Definition set_self (o : t) (w : world) : world :=
  {| self := o; at_pc := at_pc w; continueFlag := continueFlag w |}.

(** Modelled from the spec: [esptool.sw] of [tasmotizer_esptool] is not
    among the sources; the spec describes it as the driver's continue
    flag, which [setContinueFlag] writes and [continueFlag] reads. *)
Definition setContinueFlag (b : bool) (w : world) : world :=
  {| self := self w; at_pc := at_pc w; continueFlag := b |}.

(** [continue_ok], lines 80-81, and [abort], lines 83-84. *)
Definition continue_ok (w : world) : world :=
  set_self (set_continue true (self w)) w.

Definition abort (w : world) : world := setContinueFlag false w.

(** Lines 70-72, after [esptool.main] has raised. *)
Definition after_raise (s : stage) (o : outcome) (w : world)
  : world * list event :=
  match o with
  | OtherException => (set_pc PcCrashed w, [Raised s o])
  | _ => (set_pc PcFinished w, [Raised s o; ErrorSignal o; DoneSignal])
  end.

Section Run.

(** [datetime.now().strftime('%Y%m%d_%H%M%S')] when the backup starts. *)
Variable now : string.

(** One step of the thread running [run]. [o] tells how the pending
    call of [esptool.main] ends; only [PcBackup] and [PcWrite] look
    at it. *)
Definition worker_step (o : outcome) (w : world) : world * list event :=
  match at_pc w with
  | PcStart =>
    (* 50 *)
    let w := setContinueFlag true w in
    (* 53 *)
    if has_action "backup" (self w) then
      (* 54-56 *)
      match _params (self w) !! "backup_size" with
      | Some size =>
        let command_backup :=
          [VStr "read_flash"; VStr "0x00000"; size;
           VStr ("backup_" +:+ now +:+ ".bin")] in
        (set_pc PcBackup w,
         [Called Backup (command (self w) ++ command_backup)])
      | None => (set_pc PcCrashed w, [Uncaught KeyError])
      end
    else (set_pc PcCheck w, [])
  | PcBackup =>
    match o with
    | Returns =>
      (* 58-60 *)
      match _params (self w) !! "auto_reset" with
      | Some auto_reset =>
        if negb (truthy auto_reset)
        then (set_pc PcWaitEnter w, [Returned Backup])
        else (set_pc PcCheck w, [Returned Backup])
      | None => (set_pc PcCrashed w, [Returned Backup; Uncaught KeyError])
      end
    | _ => after_raise Backup o w
    end
  | PcWaitEnter =>
    (* 75-76 *)
    (set_pc PcPoll (set_self (set_continue false (self w)) w),
     [WaitingSignal])
  | PcPoll =>
    (* 77-78 *)
    if negb (_continue (self w)) then (w, []) else (set_pc PcCheck w, [])
  | PcCheck =>
    (* 62 *)
    if continueFlag w && has_action "write" (self w) then
      (* 63-68 *)
      match _params (self w) !! "file_path" with
      | Some file_path =>
        let command_write :=
          [VStr "write_flash"; VStr "--flash_mode"; VStr "dout";
           VStr "0x00000"; file_path] in
        let command_write :=
          if has_action "erase" (self w)
          then command_write ++ [VStr "--erase-all"]
          else command_write in
        (set_pc PcWrite w,
         [Called Write (command (self w) ++ command_write)])
      | None => (set_pc PcCrashed w, [Uncaught KeyError])
      end
    else
      (* 72 *)
      (set_pc PcFinished w, [DoneSignal])
  | PcWrite =>
    match o with
    | Returns => (set_pc PcFinished w, [Returned Write; DoneSignal])
    | _ => after_raise Write o w
    end
  | PcFinished => (w, [])
  | PcCrashed => (w, [])
  end.

(** The worker thread and the dialog's thread interleave: a schedule
    lists who moves next. *)
Inductive action : Type :=
| Work (o : outcome)
| CallContinueOk
| CallAbort.

Definition step (a : action) (w : world) : world * list event :=
  match a with
  | Work o => worker_step o w
  | CallContinueOk => (continue_ok w, [ContinueOkCalled])
  | CallAbort => (abort w, [AbortCalled])
  end.

Fixpoint exec (sch : list action) (w : world) : world * list event :=
  match sch with
  | [] => (w, [])
  | a :: rest =>
    let (w1, ev) := step a w in
    let (w2, tr) := exec rest w1 in
    (w2, ev ++ tr)
  end.

Definition trace (sch : list action) (w : world) : list event :=
  snd (exec sch w).

End Run.

(** Observations on traces. *)
Definition is_call (e : event) : bool :=
  match e with Called _ _ => true | _ => false end.

Definition is_waiting (e : event) : bool :=
  match e with WaitingSignal => true | _ => false end.

(** Events of the dialog's thread, as opposed to the worker's. *)
Definition by_dialog (e : event) : bool :=
  match e with ContinueOkCalled | AbortCalled => true | _ => false end.

Definition occurrences (p : event -> bool) (tr : list event) : nat :=
  length (List.filter p tr).

(** How far [run] has come. *)
Definition phase (p : pc) : nat :=
  match p with
  | PcStart => 0
  | PcBackup => 1
  | PcWaitEnter => 2
  | PcPoll => 3
  | PcCheck => 4
  | PcWrite => 5
  | PcFinished => 6
  | PcCrashed => 6
  end.

(** The latest phase an event can be emitted from. *)
Definition level (e : event) : nat :=
  match e with
  | Called Backup _ => 0
  | Returned Backup => 1
  | WaitingSignal => 2
  | Called Write _ => 4
  | _ => 6
  end.

(** Events that only occur once both driver calls are behind or [run]
    is being left. *)
Definition closing (e : event) : bool :=
  match e with
  | Returned Write | Raised _ _ | Uncaught _ | ErrorSignal _ | DoneSignal =>
    true
  | _ => false
  end.

(** A worker made for a backup that is not followed by an automatic
    reset. *)
Definition backup_without_reset (w : world) : Prop :=
  has_action "backup" (self w) = true /\
  exists auto_reset, _params (self w) !! "auto_reset" = Some auto_reset /\
                     truthy auto_reset = false.

(** The shapes a step can have when a backup without automatic reset
    was asked for. *)
Inductive move (w : world) : list event -> world -> Prop :=
| move_continue_ok :
    move w [ContinueOkCalled] (continue_ok w)
| move_abort :
    move w [AbortCalled] (abort w)
| move_idle :
    move w [] w
| move_leave_poll w' :
    at_pc w = PcPoll -> _continue (self w) = true -> at_pc w' = PcCheck ->
    move w [] w'
| move_call_backup cmd w' :
    at_pc w = PcStart -> at_pc w' = PcBackup ->
    move w [Called Backup cmd] w'
| move_backup_returned w' :
    at_pc w = PcBackup -> at_pc w' = PcWaitEnter ->
    move w [Returned Backup] w'
| move_wait w' :
    at_pc w = PcWaitEnter -> at_pc w' = PcPoll ->
    _continue (self w') = false ->
    move w [WaitingSignal] w'
| move_call_write cmd w' :
    at_pc w = PcCheck -> at_pc w' = PcWrite ->
    move w [Called Write cmd] w'
| move_close ev w' :
    at_pc w <> PcWaitEnter ->
    Forall (fun e => closing e = true) ev -> phase (at_pc w') = 6%nat ->
    move w ev w'.

(** The thread is started on a fresh worker; [flag] is whatever the
    driver's flag holds at that moment. *)
Definition start (o : t) (flag : bool) : world :=
  {| self := o; at_pc := PcStart; continueFlag := flag |}.

End ESPWorker.

(** ** ProcessDialog: preparing and starting a flashing session *)

Module ProcessDialog.

(** The keyword arguments [Tasmotizer.start_process] passes, lines
    1122-1129. [backup_size] is the index of the selected entry of the
    size box, whose entries are [2 ** s] MB for [s] in [range(5)]. *)
Record kwargs : Type := {
  kw_file_path : value;
  kw_backup : bool;
  kw_backup_size : N;
  kw_erase : bool;
  kw_auto_reset : bool
}.

(** The label of entry [s] of the size box, line 916. *)
Definition size_label (s : N) : string :=
  NilZero.string_of_uint (N.to_uint (2 ^ s)) +:+ "MB".

Record t : Type := {
  port : value;
  _actions : list string;
  _action_widgets : gmap string Z;   (* value shown by each progress bar *)
  auto_reset : bool;
  file_path : value;
  backup : bool;
  backup_size : option N;            (* assigned only when backup is set *)
  erase : bool;
  bin_data : list byte;
  bin_request : option value;        (* URL of the pending download *)
  files : gmap string (list byte);   (* files written so far *)
  esp : option ESPWorker.t           (* the worker, once run_esp made it *)
}.

Definition set_actions (a : list string) (d : t) : t :=
  {| port := port d; _actions := a; _action_widgets := _action_widgets d;
     auto_reset := auto_reset d; file_path := file_path d;
     backup := backup d; backup_size := backup_size d; erase := erase d;
     bin_data := bin_data d; bin_request := bin_request d;
     files := files d; esp := esp d |}.

Definition set_widgets (m : gmap string Z) (d : t) : t :=
  {| port := port d; _actions := _actions d; _action_widgets := m;
     auto_reset := auto_reset d; file_path := file_path d;
     backup := backup d; backup_size := backup_size d; erase := erase d;
     bin_data := bin_data d; bin_request := bin_request d;
     files := files d; esp := esp d |}.

Definition set_file_path (v : value) (d : t) : t :=
  {| port := port d; _actions := _actions d;
     _action_widgets := _action_widgets d;
     auto_reset := auto_reset d; file_path := v;
     backup := backup d; backup_size := backup_size d; erase := erase d;
     bin_data := bin_data d; bin_request := bin_request d;
     files := files d; esp := esp d |}.

Definition set_bin_data (b : list byte) (d : t) : t :=
  {| port := port d; _actions := _actions d;
     _action_widgets := _action_widgets d;
     auto_reset := auto_reset d; file_path := file_path d;
     backup := backup d; backup_size := backup_size d; erase := erase d;
     bin_data := b; bin_request := bin_request d;
     files := files d; esp := esp d |}.

Definition set_bin_request (u : value) (d : t) : t :=
  {| port := port d; _actions := _actions d;
     _action_widgets := _action_widgets d;
     auto_reset := auto_reset d; file_path := file_path d;
     backup := backup d; backup_size := backup_size d; erase := erase d;
     bin_data := bin_data d; bin_request := Some u;
     files := files d; esp := esp d |}.

Definition set_files (f : gmap string (list byte)) (d : t) : t :=
  {| port := port d; _actions := _actions d;
     _action_widgets := _action_widgets d;
     auto_reset := auto_reset d; file_path := file_path d;
     backup := backup d; backup_size := backup_size d; erase := erase d;
     bin_data := bin_data d; bin_request := bin_request d;
     files := f; esp := esp d |}.

Definition set_esp (w : ESPWorker.t) (d : t) : t :=
  {| port := port d; _actions := _actions d;
     _action_widgets := _action_widgets d;
     auto_reset := auto_reset d; file_path := file_path d;
     backup := backup d; backup_size := backup_size d; erase := erase d;
     bin_data := bin_data d; bin_request := bin_request d;
     files := files d; esp := Some w |}.

(** [s.startswith('http')]. *)
Definition startswith_http (v : value) : bool :=
  match v with
  | VStr s => String.prefix "http" s
  | _ => false
  end.

(** [s.split('/')[-1]]: the text after the last slash. *)
Fixpoint last_segment (cur : string) (s : string) : string :=
  match s with
  | EmptyString => cur
  | String c r => if Ascii.eqb c "/" then last_segment EmptyString r
                  else last_segment (cur +:+ String c EmptyString) r
  end.

(** [f'0x{2 ** self.backup_size}00000'], line 725. *)
Definition backup_size_param (n : N) : string :=
  "0x" +:+ NilZero.string_of_uint (N.to_uint (2 ^ n)) +:+ "00000".

(** [run_esp], lines 717-740. The worker is made and its thread
    started. *)
Definition run_esp (d : t) : t :=
  let params : gmap string value :=
    <["erase" := VBool (erase d)]>
      (<["auto_reset" := VBool (auto_reset d)]>
         (<["file_path" := file_path d]> ∅)) in
  let params :=
    match backup d, backup_size d with
    | true, Some n => <["backup_size" := VStr (backup_size_param n)]> params
    | _, _ => params
    end in
  set_esp (ESPWorker.new (port d) (_actions d) params) d.

(** [download_bin], lines 707-712. *)
Definition download_bin (d : t) : t := set_bin_request (file_path d) d.

(** [start_process], lines 742-747. *)
Definition start_process (d : t) : t :=
  if existsb (String.eqb "download") (_actions d) then
    let d := download_bin d in
    set_actions (tl (_actions d)) d
  else run_esp d.

(** [create_ui], lines 678-683: one progress bar per action; a new bar
    shows -1. *)
Definition create_ui (d : t) : t :=
  set_widgets
    (fold_left (fun m a => <[a := -1]> m) (_actions d) (_action_widgets d))
    d.

(** [__init__], lines 632-676. *)
Definition init (the_port : value) (kw : kwargs) : t :=
  let a0 : list string := [] in
  let a1 := if truthy (kw_file_path kw) && startswith_http (kw_file_path kw)
            then a0 ++ ["download"] else a0 in
  let a2 := if kw_backup kw then a1 ++ ["backup"] else a1 in
  let a3 := if kw_erase kw then a2 ++ ["erase"] else a2 in
  let a4 := if truthy (kw_file_path kw) then a3 ++ ["write"] else a3 in
  let d :=
    {| port := the_port; _actions := a4; _action_widgets := ∅;
       auto_reset := kw_auto_reset kw;
       file_path := kw_file_path kw;
       backup := kw_backup kw;
       backup_size := if kw_backup kw then Some (kw_backup_size kw) else None;
       erase := kw_erase kw;
       bin_data := []; bin_request := None; files := ∅; esp := None |} in
  start_process (create_ui d).

(** [QNetworkReply.error()]. *)
Inductive reply_error : Type :=
| NoError
| ReplyFailed (code : positive).

(** [appendBinFile], lines 692-693. *)
Definition appendBinFile (chunk : list byte) : M t unit :=
  modify (fun d => set_bin_data (bin_data d ++ chunk) d).

(** [open(name, 'wb')], line 698, for a name without slash: no file has
    the empty name, [.] and [..] are directories, and a name must not
    hold the zero character. Any other name is taken to be accepted by
    the file system, and the write of line 699 to succeed. *)
Definition open_wb (name : string) : exn + unit :=
  if String.eqb name EmptyString then inl FileNotFoundError
  else if String.eqb name "." || String.eqb name ".." then inl IsADirectoryError
  else if occurs Ascii.zero name then inl ValueError
  else inr tt.

(** [saveBinFile], lines 695-702. [self.file_path] has its new value
    when [open] raises. *)
Definition saveBinFile (err : reply_error) : M t unit :=
  match err with
  | NoError =>
    (p <- gets file_path ;;
     match p with
     | VStr url =>
       let name := last_segment EmptyString url in
       _ <- modify (set_file_path (VStr name)) ;;
       match open_wb name with
       | inl e => raise e
       | inr _ =>
         _ <- modify (fun d => set_files (<[name := bin_data d]> (files d)) d) ;;
         modify run_esp
       end
     | _ => raise AttributeError
     end)%py
  | ReplyFailed _ => raise NetworkError
  end.

(** [recv//total*100]: floor division, then the product. *)
Definition progress_value (recv total : Z) : exn + Z :=
  if (total =? 0)%Z then inl ZeroDivisionError
  else inr (recv / total * 100).

(** [updateBinProgress], lines 704-705. The bar is looked up before the
    argument of [setValue] is computed. *)
Definition updateBinProgress (recv total : Z) : M t unit :=
  (w <- gets (fun d => _action_widgets d !! "download") ;;
   match w with
   | None => raise KeyError
   | Some _ =>
     match progress_value recv total with
     | inl e => raise e
     | inr v =>
       modify (fun d => set_widgets (<["download" := v]> (_action_widgets d)) d)
     end
   end)%py.

(** What the network reply delivers to the dialog's slots. *)
Inductive net_event : Type :=
| ReadyRead (chunk : list byte)
| DownloadProgress (recv total : Z)
| Finished (err : reply_error).


Definition slot (e : net_event) : M t unit :=
  match e with
  | ReadyRead chunk => appendBinFile chunk
  | DownloadProgress recv total => updateBinProgress recv total
  | Finished err => saveBinFile err
  end.

(** The slots run in the order of arrival; an exception ends the
    sequence. *)
Fixpoint deliver (evs : list net_event) : M t unit :=
  match evs with
  | [] => ret tt
  | e :: rest => (_ <- slot e ;; deliver rest)%py
  end.

End ProcessDialog.

(** Modelled from the spec: the driver's reading of its arguments
    ([tasmotizer_esptool]) is not among the sources; the spec calls the
    size argument a hexadecimal literal that gives the number of bytes to
    read, so an argument [0x...] denotes the hexadecimal number after the
    prefix. *)
Definition size_in_bytes (arg : string) : N := HexString.to_N arg.

(** ** A reference instance of the JSON parser

    A reader for the JSON subset the device's GPIO answers use: objects,
    arrays, strings without escapes, integers and the three literals. It
    instantiates the [json_loads] parameter where a statement needs a
    concrete parser. *)

Module MiniJson.

Local Unset Elimination Schemes.

Inductive json : Type :=
| JNull
| JBool (b : bool)
| JNum (n : Z)
| JStr (s : string)
| JArr (items : list json)
| JObj (members : list (string * json)).

Definition quote : ascii := ascii_of_byte x22.
Definition backslash : ascii := ascii_of_byte x5c.

Definition is_ws (c : ascii) : bool :=
  Ascii.eqb c " " || Ascii.eqb c (ascii_of_byte x09)
  || Ascii.eqb c LF || Ascii.eqb c CR.

Fixpoint skip_ws (s : string) : string :=
  match s with
  | String c r => if is_ws c then skip_ws r else s
  | EmptyString => s
  end.

(** The characters up to the closing quote, and the text after it. *)
Fixpoint chars (s : string) : option (string * string) :=
  match s with
  | EmptyString => None
  | String c r =>
    if Ascii.eqb c quote then Some (EmptyString, r)
    else if Ascii.eqb c backslash then None
    else match chars r with
         | Some (t, r') => Some (String c t, r')
         | None => None
         end
  end.

Definition digit (c : ascii) : option Z :=
  let n := Z.of_nat (nat_of_ascii c) in
  if (48 <=? n)%Z && (n <=? 57)%Z then Some (n - 48) else None.

Fixpoint digits (acc : Z) (s : string) : Z * string :=
  match s with
  | String c r => match digit c with
                  | Some v => digits (10 * acc + v) r
                  | None => (acc, s)
                  end
  | EmptyString => (acc, s)
  end.

Definition number (s : string) : option (Z * string) :=
  match s with
  | String c r => match digit c with
                  | Some v => Some (digits v r)
                  | None => None
                  end
  | EmptyString => None
  end.

Definition literal (word : string) (v : json) (s : string)
  : option (json * string) :=
  if String.prefix word s
  then Some (v, String.substring (String.length word)
                                 (String.length s - String.length word) s)
  else None.

Fixpoint value (fuel : nat) (s : string) {struct fuel}
  : option (json * string) :=
  match fuel with
  | O => None
  | S f =>
    match skip_ws s with
    | EmptyString => None
    | String c r =>
      if Ascii.eqb c "{" then
        match skip_ws r with
        | String "}" r' => Some (JObj [], r')
        | _ => members f r []
        end
      else if Ascii.eqb c "[" then
        match skip_ws r with
        | String "]" r' => Some (JArr [], r')
        | _ => elements f r []
        end
      else if Ascii.eqb c quote then
        match chars r with
        | Some (t, r') => Some (JStr t, r')
        | None => None
        end
      else if Ascii.eqb c "-" then
        match number r with
        | Some (n, r') => Some (JNum (- n), r')
        | None => None
        end
      else if Ascii.eqb c "t" then literal "true" (JBool true) (String c r)
      else if Ascii.eqb c "f" then literal "false" (JBool false) (String c r)
      else if Ascii.eqb c "n" then literal "null" JNull (String c r)
      else match number (String c r) with
           | Some (n, r') => Some (JNum n, r')
           | None => None
           end
    end
  end
with members (fuel : nat) (s : string) (acc : list (string * json))
       {struct fuel} : option (json * string) :=
  match fuel with
  | O => None
  | S f =>
    match skip_ws s with
    | String c r =>
      if Ascii.eqb c quote then
        match chars r with
        | Some (k, r1) =>
          match skip_ws r1 with
          | String ":" r2 =>
            match value f r2 with
            | Some (v, r3) =>
              match skip_ws r3 with
              | String "," r4 => members f r4 (acc ++ [(k, v)])
              | String "}" r4 => Some (JObj (acc ++ [(k, v)]), r4)
              | _ => None
              end
            | None => None
            end
          | _ => None
          end
        | None => None
        end
      else None
    | EmptyString => None
    end
  end
with elements (fuel : nat) (s : string) (acc : list json)
       {struct fuel} : option (json * string) :=
  match fuel with
  | O => None
  | S f =>
    match value f s with
    | Some (v, r) =>
      match skip_ws r with
      | String "," r' => elements f r' (acc ++ [v])
      | String "]" r' => Some (JArr (acc ++ [v]), r')
      | _ => None
      end
    | None => None
    end
  end.

(** The whole text must be one value, white space apart. *)
Definition loads (s : string) : option json :=
  match value (S (String.length s)) s with
  | Some (v, rest) =>
    match skip_ws rest with
    | EmptyString => Some v
    | _ => None
    end
  | None => None
  end.

End MiniJson.

(** ** Sample inputs *)

Definition sample_port : value := VStr "COM3".

(** Flashing a local file after a 1MB backup, without automatic reset. *)
Definition sample_file_kwargs : ProcessDialog.kwargs :=
  {| ProcessDialog.kw_file_path := VStr "tasmota.bin";
     ProcessDialog.kw_backup := true;
     ProcessDialog.kw_backup_size := 0;
     ProcessDialog.kw_erase := true;
     ProcessDialog.kw_auto_reset := false |}.

(** The same with the image taken from the release server. *)
Definition sample_url_kwargs : ProcessDialog.kwargs :=
  {| ProcessDialog.kw_file_path :=
       VStr "http://ota.tasmota.com/tasmota/release/tasmota.bin";
     ProcessDialog.kw_backup := true;
     ProcessDialog.kw_backup_size := 0;
     ProcessDialog.kw_erase := true;
     ProcessDialog.kw_auto_reset := false |}.

(** The worker [run_esp] makes for [sample_file_kwargs]. *)
Definition sample_worker : ESPWorker.t :=
  ESPWorker.new sample_port ["backup"; "erase"; "write"]
    (<["backup_size" := VStr "0x100000"]>
       (<["erase" := VBool true]>
          (<["auto_reset" := VBool false]>
             (<["file_path" := VStr "tasmota.bin"]> ∅)))).

Definition sample_now : string := "20260101_120000".

(** The text [RESULT = ] and a line end, as the device sends them around
    an answer. *)
Definition sample_prefix : list byte :=
  [x52; x45; x53; x55; x4c; x54; x20; x3d; x20].

Definition sample_suffix : list byte := [x0d; x0a].

(** ** Further observations on the worker's runs *)

Module ESPRun.

Import ESPWorker.

Definition is_write_call (e : event) : bool :=
  match e with Called Write _ => true | _ => false end.

Definition is_done (e : event) : bool :=
  match e with DoneSignal => true | _ => false end.

(** [run] has been left, by its last line or by an exception. *)
Definition ended (w : world) : Prop :=
  at_pc w = PcFinished \/ at_pc w = PcCrashed.

(** The worker neither waits nor can come to wait: it has no backup to
    make, or the device resets itself. *)
Definition never_waits (w : world) : Prop :=
  at_pc w <> PcWaitEnter /\ at_pc w <> PcPoll /\
  ((has_action "backup" (self w) = false /\ at_pc w <> PcBackup) \/
   exists auto_reset, _params (self w) !! "auto_reset" = Some auto_reset /\
                      truthy auto_reset = true).

(** Events with which [run] is left. *)
Definition final (e : event) : bool :=
  match e with
  | Raised _ _ | Uncaught _ | ErrorSignal _ | DoneSignal => true
  | _ => false
  end.

(** What the step that leaves [run] emits: lines 62 and 72 without a
    write; line 68 returning; an exception caught at line 70; another
    exception of the driver; a missing key of [_params]. *)
Inductive last_events : list event -> Prop :=
| last_done : last_events [DoneSignal]
| last_written : last_events [Returned Write; DoneSignal]
| last_caught s o :
    o = FatalError \/ o = SerialException ->
    last_events [Raised s o; ErrorSignal o; DoneSignal]
| last_other s : last_events [Raised s OtherException]
| last_key : last_events [Uncaught KeyError]
| last_key_after_backup : last_events [Returned Backup; Uncaught KeyError].

Definition is_work (a : action) : Prop :=
  match a with Work _ => True | _ => False end.

(** [ProcessDialog.wait_for_user], lines 753-763: what the dialog calls on
    the worker for each answer to the power-cycle prompt. The dialog's own
    [abort] (lines 773-778) calls the worker's [abort] once more. *)
Inductive answer : Type := Ok | Cancel.

Definition wait_for_user_calls (dlg : answer) : list action :=
  match dlg with
  | Ok => [CallContinueOk]
  | Cancel => [CallAbort; CallContinueOk; CallAbort]
  end.

(** The state the worker is in while the prompt is up: it polls, and
    [wait_for_user] has just put [_continue] back to false. *)
Definition prompting (w : world) : Prop :=
  at_pc w = PcPoll /\ _continue (self w) = false.

(** The calls of the dialog's thread in a schedule, in order. *)
Fixpoint dialog_calls (sch : list action) : list action :=
  match sch with
  | [] => []
  | Work _ :: rest => dialog_calls rest
  | a :: rest => a :: dialog_calls rest
  end.

(** With the flag cleared and [_continue] set, the worker is on its way
    out of [run]. *)
Definition leaving (w : world) : Prop :=
  continueFlag w = false /\
  ((at_pc w = PcPoll /\ _continue (self w) = true) \/
   at_pc w = PcCheck \/ at_pc w = PcFinished).

(** Whether [done] is still to be emitted. *)
Definition pending (w : world) : nat :=
  match at_pc w with PcFinished => 0 | _ => 1 end.

Definition is_uncaught (e : event) : bool :=
  match e with Uncaught _ => true | _ => false end.

(** Every parameter [run] may read is there: [file_path] and
    [auto_reset], and [backup_size] when a backup is asked for. *)
Definition has_its_parameters (o : t) : Prop :=
  is_Some (_params o !! "file_path") /\
  is_Some (_params o !! "auto_reset") /\
  (has_action "backup" o = true -> is_Some (_params o !! "backup_size")).

End ESPRun.

(** ** Further observations on a download *)

Module Download.

Import ProcessDialog.

(** The bytes the reply has delivered through [readyRead], in order. *)
Fixpoint received (evs : list net_event) : list byte :=
  match evs with
  | [] => []
  | ReadyRead chunk :: rest => chunk ++ received rest
  | _ :: rest => received rest
  end.

(** A notification before the end of the reply whose slot returns: data,
    or a progress whose total is not 0. *)
Definition handled (e : net_event) : Prop :=
  match e with
  | ReadyRead _ => True
  | DownloadProgress _ total => total <> 0
  | Finished _ => False
  end.

(** What [__init__] establishes and the slots keep: 'backup' is among
    the actions only with [backup] set and [backup_size] assigned, and a
    worker, once made, has the parameters [run] reads. *)
Definition consistent (d : t) : Prop :=
  (In "backup" (_actions d) -> backup d = true /\ is_Some (backup_size d)) /\
  (forall w, esp d = Some w -> ESPRun.has_its_parameters w).

End Download.

(** ** DeviceIP: the address dialog *)

Module DeviceIP.

(** *** The pattern [(?:\()((?:[0-9]{1,3}\.){3}[0-9]{1,3})(?:\))]

    Every character of the pattern is ASCII, and in UTF-8 no byte of a
    longer sequence is an ASCII byte: searching the decoded text and
    searching its UTF-8 bytes find the same match. A group [[0-9]{1,3}]
    is followed by a character that is no digit, so whatever the regex
    engine tries, a group can only match the whole run of digits at its
    place, and only when the run has one to three digits. *)

Definition is_digit (c : ascii) : bool :=
  (48 <=? N_of_ascii c)%N && (N_of_ascii c <=? 57)%N.

(** The digits a text starts with, and what follows them. *)
Fixpoint digit_run (s : string) : string * string :=
  match s with
  | EmptyString => (EmptyString, EmptyString)
  | String c r =>
    if is_digit c then (String c (fst (digit_run r)), snd (digit_run r))
    else (EmptyString, s)
  end.

(** [[0-9]{1,3}] followed by the character [stop]: the digits and the
    text after [stop]. *)
Definition octet (stop : ascii) (s : string) : option (string * string) :=
  let (ds, rest) := digit_run s in
  if (1 <=? String.length ds)%nat && (String.length ds <=? 3)%nat then
    match rest with
    | String c r => if Ascii.eqb c stop then Some (ds, r) else None
    | EmptyString => None
    end
  else None.

Definition dot : string := ".".

(** The pattern after its opening parenthesis; the result is group 1. *)
Definition quad (s : string) : option string :=
  match octet "." s with
  | Some (a, r1) =>
    match octet "." r1 with
    | Some (b, r2) =>
      match octet "." r2 with
      | Some (c, r3) =>
        match octet ")" r3 with
        | Some (d, _) => Some (a +:+ dot +:+ b +:+ dot +:+ c +:+ dot +:+ d)
        | None => None
        end
      | None => None
      end
    | None => None
    end
  | None => None
  end.

(** [self.re_ip.search(text)], then [match[1]]: the leftmost match. *)
Fixpoint re_ip_search (s : string) : option string :=
  match s with
  | EmptyString => None
  | String c r =>
    if Ascii.eqb c "(" then
      match quad r with
      | Some g => Some g
      | None => re_ip_search r
      end
    else re_ip_search r
  end.

Record t : Type := {
  data : list byte;        (* self.data *)
  ip : string;             (* the text of the field self.ip *)
  written : list string    (* lines handed to self.port.write *)
}.

Definition placeholder : string := "xx.xx.xx.xx".

(** [__init__], lines 789-819; opening the port and writing to it are
    taken to succeed. *)
Definition init : t :=
  {| data := []; ip := placeholder;
     written := [PinConfigDialog.line "IPAddress1"] |}.

(** [read], lines 821-828, with [chunk] the result of
    [self.port.readAll()]. The buffer has grown when the decoding
    raises, and the bare [except] drops the exception. *)
Definition read (chunk : list byte) (d : t) : t :=
  let buf := data d ++ chunk in
  match decode_utf8 buf with
  | Some text =>
    match re_ip_search text with
    | Some g => {| data := buf; ip := g; written := written d |}
    | None => {| data := buf; ip := ip d; written := written d |}
    end
  | None => {| data := buf; ip := ip d; written := written d |}
  end.

(** The [readyRead] slot called once per arriving chunk. *)
Definition reads (chunks : list (list byte)) (d : t) : t :=
  fold_left (fun d chunk => read chunk d) chunks d.

(** One to three digits. *)
Definition octet_text (a : string) : Prop :=
  (1 <= String.length a <= 3)%nat /\
  forall c, occurs c a = true -> is_digit c = true.

Definition dotted_quad (g : string) : Prop :=
  exists a b c d,
    g = a +:+ dot +:+ b +:+ dot +:+ c +:+ dot +:+ d /\
    octet_text a /\ octet_text b /\ octet_text c /\ octet_text d.

End DeviceIP.

(** [if text:], and [len(text) > 0], for a string. *)
Definition nonempty (s : string) : bool := negb (String.eqb s EmptyString).

(** ** SendConfigDialog: the configuration form *)

Module SendConfigDialog.

(** The widgets [accept] reads. [cbModule] is the text [format] gives for
    the module id selected in the box. *)
Record t : Type := {
  gbWifi : bool;
  leAP : string;
  leAPPwd : string;
  gbRecWifi : bool;
  gbMQTT : bool;
  leBroker : string;
  sbPort : Z;
  leTopic : string;
  leFullTopic : string;
  leFriendlyName : string;
  leMQTTUser : string;
  leMQTTPass : string;
  gbModule : bool;
  module_mode : Z;
  cbModule : string;
  leTemplate : string
}.

Inductive warning : Type :=
| WifiIncomplete
| MqttIncomplete
| TemplateMissing.

(** Lines 231-241: the warnings shown; [ok] stays true when there is
    none. *)
Definition warnings (f : t) : list warning :=
  (if gbWifi f && (negb (nonempty (leAP f)) || negb (nonempty (leAPPwd f)))
   then [WifiIncomplete] else []) ++
  (if gbMQTT f && negb (nonempty (leBroker f))
   then [MqttIncomplete] else []) ++
  (if (module_mode f =? 1)%Z && negb (nonempty (leTemplate f))
   then [TemplateMissing] else []).

(** ['{}'.format(n)] for an [int]. *)
Definition format_int (n : Z) : string := NilZero.string_of_int (Z.to_int n).

(** Lines 244-280. *)
Definition backlog (f : t) : list string :=
  let b0 : list string := [] in
  let b1 := if gbWifi f
            then b0 ++ ["ssid1 " +:+ leAP f; "password1 " +:+ leAPPwd f]
            else b0 in
  let b2 := if gbRecWifi f
            then b1 ++ ["ssid2 Recovery"; "password2 a1b2c3d4"]
            else b1 in
  let b3 :=
    if gbMQTT f then
      let m0 := b2 ++ ["mqtthost " +:+ leBroker f;
                       "mqttport " +:+ format_int (sbPort f)] in
      let m1 := if nonempty (leTopic f)
                   && negb (String.eqb (leTopic f) "tasmota")
                then m0 ++ ["topic " +:+ leTopic f] else m0 in
      let m2 := if nonempty (leFullTopic f)
                   && negb (String.eqb (leFullTopic f) "%prefix%/%topic%/")
                then m1 ++ ["fulltopic " +:+ leFullTopic f] else m1 in
      let m3 := if nonempty (leFriendlyName f)
                then m2 ++ ["friendlyname " +:+ leFriendlyName f] else m2 in
      if nonempty (leMQTTUser f) then
        let m4 := m3 ++ ["mqttuser " +:+ leMQTTUser f] in
        if nonempty (leMQTTPass f)
        then m4 ++ ["mqttpassword " +:+ leMQTTPass f] else m4
      else m3
    else b2 in
  if gbModule f then
    if (module_mode f =? 0)%Z then b3 ++ ["module " +:+ cbModule f]
    else if (module_mode f =? 1)%Z
         then b3 ++ ["template " +:+ leTemplate f; "module 0"]
         else b3
  else b3.

(** [sep.join(items)]. *)
Fixpoint join (sep : string) (items : list string) : string :=
  match items with
  | [] => EmptyString
  | [x] => x
  | x :: rest => x +:+ sep +:+ join sep rest
  end.

(** The form with another text in the password field of the MQTT
    group. *)
Definition with_password (p : string) (f : t) : t :=
  {| gbWifi := gbWifi f; leAP := leAP f; leAPPwd := leAPPwd f;
     gbRecWifi := gbRecWifi f; gbMQTT := gbMQTT f; leBroker := leBroker f;
     sbPort := sbPort f; leTopic := leTopic f; leFullTopic := leFullTopic f;
     leFriendlyName := leFriendlyName f; leMQTTUser := leMQTTUser f;
     leMQTTPass := p;
     gbModule := gbModule f; module_mode := module_mode f;
     cbModule := cbModule f; leTemplate := leTemplate f |}.

(** [accept], lines 228-284: the warnings shown and [self.commands],
    which stays [None] when the dialog is not closed. *)
Definition accept (f : t) : list warning * option string :=
  match warnings f with
  | [] => ([], Some ("backlog " +:+ join ";" (backlog f)
                     +:+ String LF EmptyString))
  | ws => (ws, None)
  end.

End SendConfigDialog.

(** ** Tasmotizer: the main window *)

Module Tasmotizer.

(** What [send_config] does once the user's last answer to the form is
    Save; [port_ok] tells whether opening the port and writing
    succeed. *)
Inductive sent : Type :=
| StillOpen (ws : list SendConfigDialog.warning)
| PortAccessError
| Written (commands : string)
| NothingToSend.

(** [send_config], lines 1072-1108. *)
Definition send_config (f : SendConfigDialog.t) (port_ok : bool) : sent :=
  match SendConfigDialog.accept f with
  | (ws, None) => StillOpen ws
  | (_, Some commands) =>
    if nonempty commands then
      if port_ok then Written commands else PortAccessError
    else NothingToSend
  end.

(** The widgets and attributes [start_process] reads. *)
Record t : Type := {
  mode : Z;                  (* 0 file, 1 release, 2 development *)
  file_path : value;         (* self.file_path, '' at first *)
  file : string;             (* the text of the file box *)
  cbHackboxBin : value;      (* currentData() of the image box *)
  cbxPort : value;
  cbBackup : bool;
  cbxBackupSize : N;
  cbErase : bool;
  cbSelfReset : bool
}.

Inductive started : Type :=
| ImagePathMissing
| Dialog (path : value) (d : ProcessDialog.t).

(** [start_process], lines 1110-1130, up to the dialog it opens; the
    first component of [Dialog] is the new [self.file_path]. *)
Definition start_process (w : t) : started :=
  let run (path : value) :=
    Dialog path
      (ProcessDialog.init (cbxPort w)
         {| ProcessDialog.kw_file_path := path;
            ProcessDialog.kw_backup := cbBackup w;
            ProcessDialog.kw_backup_size := cbxBackupSize w;
            ProcessDialog.kw_erase := cbErase w;
            ProcessDialog.kw_auto_reset := cbSelfReset w |}) in
  if (mode w =? 0)%Z then
    if nonempty (file w) then run (VStr (file w))
    else ImagePathMissing
  else if (mode w =? 1)%Z || (mode w =? 2)%Z then run (cbHackboxBin w)
  else run (file_path w).

End Tasmotizer.

(** ** CommandDialog: the serial terminal *)

Module CommandDialog.

(** The text of the command box as its code points: [str.split()] cuts
    at the characters for which [str.isspace] holds, some of which lie
    outside ASCII. *)
Definition text : Type := list N.

(** [str.isspace]: the white space of Unicode. *)
Definition isspace (c : N) : bool :=
  ((9 <=? c) && (c <=? 13) || (28 <=? c) && (c <=? 32)
   || (c =? 133) || (c =? 160) || (c =? 5760)
   || (8192 <=? c) && (c <=? 8202)
   || (c =? 8232) || (c =? 8233) || (c =? 8239) || (c =? 8287)
   || (c =? 12288))%N.

Definition space : N := 32%N.
Definition line_feed : N := 10%N.

(** [s.split()]: the maximal runs of characters that are no white space;
    [cur] is the run being read. *)
Fixpoint split_acc (cur : text) (s : text) : list text :=
  match s with
  | [] => match cur with [] => [] | _ => [cur] end
  | c :: r =>
    if isspace c then
      match cur with
      | [] => split_acc [] r
      | _ => cur :: split_acc [] r
      end
    else split_acc (cur ++ [c]) r
  end.

Definition split (s : text) : list text := split_acc [] s.

(** A word of [split]: not empty, and free of white space. *)
Definition word (w : text) : Prop :=
  w <> [] /\ Forall (fun c => isspace c = false) w.

(** [" ".join(words)]. *)
Fixpoint join (words : list text) : text :=
  match words with
  | [] => []
  | [w] => w
  | w :: rest => w ++ space :: join rest
  end.

(** Line 562-563. *)
Definition formatted (s : text) : text := join (split s) ++ [line_feed].

Inductive sent : Type :=
| Written (line : text)
| PortAccessError
| NothingToSend.

(** [sendCommand], lines 559-574; [port_ok] tells whether the write
    succeeds. *)
Definition sendCommand (s : text) (port_ok : bool) : sent :=
  match s with
  | [] => NothingToSend
  | _ => if port_ok then Written (formatted s) else PortAccessError
  end.

(** The console: the paragraphs appended so far. *)
Definition console : Type := list string.

(** [readFromPort], lines 576-579. *)
Definition readFromPort (chunk : list byte) : M console unit :=
  match chunk with
  | [] => ret tt
  | _ =>
    match decode_utf8 chunk with
    | Some s => modify (fun c => c ++ [s])
    | None => raise UnicodeDecodeError
    end
  end.

Fixpoint receive (chunks : list (list byte)) : M console unit :=
  match chunks with
  | [] => ret tt
  | chunk :: rest => (_ <- readFromPort chunk ;; receive rest)%py
  end.

End CommandDialog.

(** ** Further sample inputs *)

(** A worker for a backup alone, on a device that resets itself. *)
Definition sample_backup_worker : ESPWorker.t :=
  ESPWorker.new sample_port ["backup"]
    (<["backup_size" := VStr "0x100000"]>
       (<["erase" := VBool false]>
          (<["auto_reset" := VBool true]>
             (<["file_path" := VNone]> ∅)))).

(** [sample_worker] at the power-cycle prompt. *)
Definition sample_prompting : ESPWorker.world :=
  fst (ESPWorker.exec sample_now
         [ESPWorker.Work ESPWorker.Returns; ESPWorker.Work ESPWorker.Returns;
          ESPWorker.Work ESPWorker.Returns]
         (ESPWorker.start sample_worker true)).

Definition sample_url : string :=
  "http://ota.tasmota.com/tasmota/release/tasmota.bin".

(** What a reply delivers before it ends. *)
Definition sample_download : list ProcessDialog.net_event :=
  [ProcessDialog.ReadyRead [x01; x02];
   ProcessDialog.DownloadProgress 2 1024;
   ProcessDialog.ReadyRead [x03]].

(** The bytes of [(10.0.0.7)], and of [ (10.0.0.8)]. *)
Definition sample_address : list byte :=
  [x28; x31; x30; x2e; x30; x2e; x30; x2e; x37; x29].

Definition sample_later_address : list byte :=
  [x20; x28; x31; x30; x2e; x30; x2e; x30; x2e; x38; x29].

(** A form with the MQTT group ticked, a password and no user. *)
Definition sample_form : SendConfigDialog.t :=
  {| SendConfigDialog.gbWifi := true;
     SendConfigDialog.leAP := "home";
     SendConfigDialog.leAPPwd := "secret";
     SendConfigDialog.gbRecWifi := false;
     SendConfigDialog.gbMQTT := true;
     SendConfigDialog.leBroker := "broker.local";
     SendConfigDialog.sbPort := 1883;
     SendConfigDialog.leTopic := "tasmota";
     SendConfigDialog.leFullTopic := "%prefix%/%topic%/";
     SendConfigDialog.leFriendlyName := EmptyString;
     SendConfigDialog.leMQTTUser := EmptyString;
     SendConfigDialog.leMQTTPass := "hidden";
     SendConfigDialog.gbModule := false;
     SendConfigDialog.module_mode := 0;
     SendConfigDialog.cbModule := "18";
     SendConfigDialog.leTemplate := EmptyString |}.

(** A form with no group ticked. *)
Definition sample_empty_form : SendConfigDialog.t :=
  {| SendConfigDialog.gbWifi := false;
     SendConfigDialog.leAP := EmptyString;
     SendConfigDialog.leAPPwd := EmptyString;
     SendConfigDialog.gbRecWifi := false;
     SendConfigDialog.gbMQTT := false;
     SendConfigDialog.leBroker := EmptyString;
     SendConfigDialog.sbPort := 1883;
     SendConfigDialog.leTopic := "tasmota";
     SendConfigDialog.leFullTopic := "%prefix%/%topic%/";
     SendConfigDialog.leFriendlyName := EmptyString;
     SendConfigDialog.leMQTTUser := EmptyString;
     SendConfigDialog.leMQTTPass := EmptyString;
     SendConfigDialog.gbModule := false;
     SendConfigDialog.module_mode := 0;
     SendConfigDialog.cbModule := "18";
     SendConfigDialog.leTemplate := EmptyString |}.

(** The main window with a local image chosen, and with the release list
    selected while the image box is empty. *)
Definition sample_window : Tasmotizer.t :=
  {| Tasmotizer.mode := 0;
     Tasmotizer.file_path := VStr EmptyString;
     Tasmotizer.file := "tasmota.bin";
     Tasmotizer.cbHackboxBin := VNone;
     Tasmotizer.cbxPort := sample_port;
     Tasmotizer.cbBackup := false;
     Tasmotizer.cbxBackupSize := 0;
     Tasmotizer.cbErase := true;
     Tasmotizer.cbSelfReset := false |}.

Definition sample_release_window : Tasmotizer.t :=
  {| Tasmotizer.mode := 1;
     Tasmotizer.file_path := VStr EmptyString;
     Tasmotizer.file := EmptyString;
     Tasmotizer.cbHackboxBin := VNone;
     Tasmotizer.cbxPort := sample_port;
     Tasmotizer.cbBackup := false;
     Tasmotizer.cbxBackupSize := 0;
     Tasmotizer.cbErase := true;
     Tasmotizer.cbSelfReset := false |}.

(** * Properties *)

(** ** Download progress *)

Section DownloadProgress.

Import ProcessDialog.

Lemma progress_value_floor (recv total : Z) :
  0 < total -> progress_value recv total = inr (recv / total * 100).
Proof.
  intros Ht. unfold progress_value.
  destruct (Z.eqb_spec total 0); [lia | reflexivity].
Qed.

Lemma updateBinProgress_shown (d : t) (recv total : Z) :
  is_Some (_action_widgets d !! "download") -> 0 < total ->
  updateBinProgress recv total d =
    (set_widgets (<["download" := recv / total * 100]> (_action_widgets d)) d,
     inr tt).
Proof.
  intros [old Hold] Ht.
  unfold updateBinProgress, bind, gets, modify.
  rewrite Hold, (progress_value_floor _ _ Ht). reflexivity.
Qed.

(** C10. While a download is under way ([0 <= recv < total]) the value
    handed to the download bar by [updateBinProgress] is 0, and within
    [0 <= recv <= total] it is 100 exactly when [recv = total]: the floor
    division [recv // total] happens before the multiplication. *)
Theorem download_progress_zero_until_complete (d : t) (recv total : Z) :
  is_Some (_action_widgets d !! "download") ->
  0 <= recv <= total -> 0 < total ->
  let r := updateBinProgress recv total d in
  raised r = None /\
  (recv < total -> _action_widgets (fst r) !! "download" = Some 0) /\
  (_action_widgets (fst r) !! "download" = Some 100 <-> recv = total).
Proof.
  intros Hbar Hrange Ht r. subst r.
  rewrite (updateBinProgress_shown _ _ _ Hbar Ht). cbn.
  rewrite lookup_insert_eq.
  split; [reflexivity | split].
  - intros Hlt. rewrite Z.div_small by lia. reflexivity.
  - split.
    + intros Heq. injection Heq as Heq.
      destruct (Z.eq_dec recv total) as [|Hne]; [assumption | exfalso].
      rewrite Z.div_small in Heq by lia. discriminate.
    + intros ->. rewrite Z.div_same by lia. reflexivity.
Qed.

End DownloadProgress.

Lemma download_progress_witness :
  is_Some (ProcessDialog._action_widgets
             (ProcessDialog.init sample_port sample_url_kwargs)
           !! "download") /\
  (0 <= 512 <= 1024) /\ 0 < 1024 /\
  let r := ProcessDialog.updateBinProgress 512 1024
             (ProcessDialog.init sample_port sample_url_kwargs) in
  raised r = None /\
  (512 < 1024 ->
   ProcessDialog._action_widgets (fst r) !! "download" = Some 0) /\
  (ProcessDialog._action_widgets (fst r) !! "download" = Some 100 <->
   512 = 1024).
Proof.
  assert (H : is_Some (ProcessDialog._action_widgets
                         (ProcessDialog.init sample_port sample_url_kwargs)
                       !! "download"))
    by (exists (-1); vm_compute; reflexivity).
  split; [exact H | split; [lia | split; [lia |]]].
  apply (download_progress_zero_until_complete _ 512 1024 H); lia.
Defined.

(** ** The backup size handed to the driver *)

Section BackupSize.

Import ProcessDialog.

(** [run_esp] stores the formatted size under [backup_size]. *)
Lemma run_esp_backup_size (d : t) (n : N) :
  backup d = true -> backup_size d = Some n ->
  exists w, esp (run_esp d) = Some w /\
    ESPWorker._actions w = _actions d /\
    ESPWorker._params w !! "backup_size" = Some (VStr (backup_size_param n)).
Proof.
  intros Hb Hn. unfold run_esp. rewrite Hb, Hn. cbn.
  eexists; split; [reflexivity | split; [reflexivity |]].
  cbn. apply lookup_insert_eq.
Qed.

(** The worker passes the stored size on as the length argument of
    [read_flash]. *)
Lemma backup_command_size (now : string) (w : ESPWorker.t) (flag : bool)
    (size : value) :
  ESPWorker.has_action "backup" w = true ->
  ESPWorker._params w !! "backup_size" = Some size ->
  ESPWorker.trace now [ESPWorker.Work ESPWorker.Returns]
                  (ESPWorker.start w flag) =
    [ESPWorker.Called ESPWorker.Backup
       (ESPWorker.command w ++
        [VStr "read_flash"; VStr "0x00000"; size;
         VStr ("backup_" +:+ now +:+ ".bin")])].
Proof.
  intros Ha Hs. unfold ESPWorker.trace. cbn.
  unfold ESPWorker.worker_step. cbn. rewrite Ha, Hs. reflexivity.
Qed.

(** X27. For the size classes 0 to 3 the argument built for the backup,
    read as a hexadecimal literal, denotes [2^n] megabytes: the entries
    1MB to 8MB of the size box read the amount they name. *)
Lemma backup_size_param_upto_8MB (n : N) :
  (n <= 3)%N ->
  size_in_bytes (backup_size_param n) = (2 ^ n * 1048576)%N.
Proof.
  intros Hn.
  assert (n = 0 \/ n = 1 \/ n = 2 \/ n = 3)%N as [-> | [-> | [-> | ->]]]
    by lia; reflexivity.
Qed.

(** C3 (the code departs from the claim at class 4). The size box
    offers 16MB as its entry 4, but the argument built for it is
    [0x1600000]: the decimal digits of [2 ** 4] placed in a hexadecimal
    literal, which denotes 23068672 bytes and not [2^4 * 0x100000]. *)
Theorem backup_size_class_4 (now : string) (flag : bool) :
  let kw := {| kw_file_path := VStr "tasmota.bin"; kw_backup := true;
               kw_backup_size := 4; kw_erase := true;
               kw_auto_reset := false |} in
  size_label (kw_backup_size kw) = "16MB" /\
  exists w, esp (init (VStr "COM3") kw) = Some w /\
    ESPWorker.trace now [ESPWorker.Work ESPWorker.Returns]
                    (ESPWorker.start w flag) =
      [ESPWorker.Called ESPWorker.Backup
         (ESPWorker.command w ++
          [VStr "read_flash"; VStr "0x00000"; VStr "0x1600000";
           VStr ("backup_" +:+ now +:+ ".bin")])] /\
    size_in_bytes "0x1600000" = 23068672%N /\
    size_in_bytes "0x1600000" <> (2 ^ 4 * 1048576)%N.
Proof.
  intros kw. split; [reflexivity |].
  destruct (run_esp_backup_size
              (create_ui
                 {| port := VStr "COM3";
                    _actions := ["backup"; "erase"; "write"];
                    _action_widgets := ∅; auto_reset := false;
                    file_path := VStr "tasmota.bin"; backup := true;
                    backup_size := Some 4%N; erase := true;
                    bin_data := []; bin_request := None; files := ∅;
                    esp := None |}) 4%N eq_refl eq_refl)
    as (w & Hw & Ha & Hp).
  exists w. split; [exact Hw | split; [| split]].
  - apply backup_command_size; [| exact Hp].
    unfold ESPWorker.has_action. rewrite Ha. reflexivity.
  - reflexivity.
  - discriminate.
Qed.

End BackupSize.

(** ** A failed download *)

Section FailedDownload.

Import ProcessDialog.

Lemma init_download (p : value) (kw : kwargs) :
  truthy (kw_file_path kw) = true ->
  startswith_http (kw_file_path kw) = true ->
  esp (init p kw) = None /\
  bin_request (init p kw) = Some (kw_file_path kw).
Proof.
  intros Ht Hh. unfold init. rewrite Ht, Hh. cbn.
  unfold start_process.
  destruct (kw_backup kw), (kw_erase kw); cbn; auto.
Qed.


Lemma deliver_app (evs1 evs2 : list net_event) (d : t) :
  deliver (evs1 ++ evs2) d =
    match deliver evs1 d with
    | (d', inr _) => deliver evs2 d'
    | (d', inl e) => (d', inl e)
    end.
Proof.
  revert d. induction evs1 as [| e evs1 IH]; intros d; [reflexivity |].
  cbn. unfold bind. destruct (slot e d) as [d1 [x | []]]; [reflexivity |].
  apply IH.
Qed.



(** C4 (the code departs from the claim). A download that fails after a
    progress notification with total 0 does not end in [NetworkError]:
    [updateBinProgress] has already raised [ZeroDivisionError] at line
    705, and the finished reply is never handled. Without that
    notification [saveBinFile] raises [NetworkError]. The worker is made
    in neither case. *)
Theorem failed_download_after_zero_total :
  let d0 := init sample_port sample_url_kwargs in
  let failed := Finished (ReplyFailed 3) in
  let r := deliver [DownloadProgress 0 0; failed] d0 in
  raised r = Some ZeroDivisionError /\
  esp (fst r) = None /\
  raised (deliver [failed] d0) = Some NetworkError /\
  esp (fst (deliver [failed] d0)) = None.
Proof. repeat split; vm_compute; reflexivity. Qed.

End FailedDownload.


(** ** The worker: abort *)

Section AbortFlag.

Import ESPWorker.

Variable now : string.

Lemma trace_cons (a : action) (sch : list action) (w : world) :
  trace now (a :: sch) w =
    snd (step now a w) ++ trace now sch (fst (step now a w)).
Proof.
  unfold trace. cbn. destruct (step now a w) as [w1 ev]. cbn.
  destruct (exec now sch w1) as [w2 tr]. reflexivity.
Qed.

Lemma trace_nil (w : world) : trace now [] w = [].
Proof. reflexivity. Qed.

(** With the flag cleared and [run] past its first line, a step leaves
    the flag cleared and enters no driver call. *)
Lemma step_flag_cleared (a : action) (w : world) :
  continueFlag w = false -> at_pc w <> PcStart ->
  continueFlag (fst (step now a w)) = false /\
  at_pc (fst (step now a w)) <> PcStart /\
  Forall (fun e => is_call e = false) (snd (step now a w)).
Proof.
  intros Hflag Hpc.
  destruct a as [o | |]; cbn; [| repeat split; auto ..].
  unfold worker_step.
  destruct (at_pc w) eqn:Epc; try congruence.
  - destruct o; cbn; try (repeat split; auto; discriminate).
    destruct (_params (self w) !! "auto_reset") as [v |]; cbn;
      [destruct (truthy v); cbn |]; repeat split; auto; discriminate.
  - cbn. repeat split; auto; discriminate.
  - destruct (_continue (self w)); cbn; repeat split; auto; congruence.
  - rewrite Hflag. cbn. repeat split; auto; discriminate.
  - destruct o; cbn; repeat split; auto; discriminate.
  - cbn. repeat split; auto; congruence.
  - cbn. repeat split; auto; congruence.
Qed.

Lemma no_call_once_flag_cleared (sch : list action) (w : world) :
  continueFlag w = false -> at_pc w <> PcStart ->
  Forall (fun e => is_call e = false) (trace now sch w).
Proof.
  revert w. induction sch as [| a sch IH]; intros w Hflag Hpc.
  - rewrite trace_nil. constructor.
  - rewrite trace_cons.
    destruct (step_flag_cleared a w Hflag Hpc) as (Hf & Hp & Hev).
    apply Forall_app. split; [exact Hev | apply IH; assumption].
Qed.

(** C5. [abort] clears the flag shared with the driver. Once [run] is
    past its first line (a stage is running, or the worker waits or is
    about to test the flag), no driver call is entered after an [abort],
    whatever the two threads do next; a second [abort] changes
    nothing. *)
Theorem abort_stops_later_stages (w : world) (sch : list action) :
  at_pc w <> PcStart ->
  continueFlag (abort w) = false /\
  (forall s cmd, ~ In (Called s cmd) (trace now sch (abort w))) /\
  abort (abort w) = abort w.
Proof.
  intros Hpc. split; [reflexivity | split; [| reflexivity]].
  intros s cmd Hin.
  pose proof (no_call_once_flag_cleared sch (abort w) eq_refl Hpc) as Hall.
  rewrite List.Forall_forall in Hall. specialize (Hall _ Hin). discriminate.
Qed.

End AbortFlag.

(** An [abort] that comes before [run] has executed its first line is
    undone by [setContinueFlag(True)]: the write call is still entered. *)
Lemma abort_before_start_is_undone :
  ESPWorker.trace sample_now
    [ESPWorker.CallAbort;
     ESPWorker.Work ESPWorker.Returns; ESPWorker.Work ESPWorker.Returns;
     ESPWorker.Work ESPWorker.Returns; ESPWorker.CallContinueOk;
     ESPWorker.Work ESPWorker.Returns; ESPWorker.Work ESPWorker.Returns]
    (ESPWorker.start sample_worker true) =
  [ESPWorker.AbortCalled;
   ESPWorker.Called ESPWorker.Backup
     (ESPWorker.command sample_worker ++
      [VStr "read_flash"; VStr "0x00000"; VStr "0x100000";
       VStr "backup_20260101_120000.bin"]);
   ESPWorker.Returned ESPWorker.Backup;
   ESPWorker.WaitingSignal;
   ESPWorker.ContinueOkCalled;
   ESPWorker.Called ESPWorker.Write
     (ESPWorker.command sample_worker ++
      [VStr "write_flash"; VStr "--flash_mode"; VStr "dout";
       VStr "0x00000"; VStr "tasmota.bin"; VStr "--erase-all"])].
Proof. vm_compute. reflexivity. Qed.

Lemma abort_witness :
  let w := fst (ESPWorker.step sample_now (ESPWorker.Work ESPWorker.Returns)
                  (ESPWorker.start sample_worker false)) in
  let sch := [ESPWorker.Work ESPWorker.Returns;
              ESPWorker.Work ESPWorker.Returns;
              ESPWorker.CallContinueOk;
              ESPWorker.Work ESPWorker.Returns;
              ESPWorker.Work ESPWorker.Returns] in
  ESPWorker.at_pc w = ESPWorker.PcBackup /\
  ESPWorker.at_pc w <> ESPWorker.PcStart /\
  ESPWorker.continueFlag (ESPWorker.abort w) = false /\
  (forall s cmd,
     ~ In (ESPWorker.Called s cmd)
          (ESPWorker.trace sample_now sch (ESPWorker.abort w))) /\
  ESPWorker.abort (ESPWorker.abort w) = ESPWorker.abort w.
Proof.
  intros w sch.
  assert (Hpc : ESPWorker.at_pc w <> ESPWorker.PcStart) by discriminate.
  split; [reflexivity | split; [exact Hpc |]].
  exact (abort_stops_later_stages sample_now w sch Hpc).
Defined.

(** ** The worker: the pause between backup and write *)

Section Pause.

Import ESPWorker.

Variable now : string.

Lemma step_moves (a : action) (w : world) :
  backup_without_reset w ->
  backup_without_reset (fst (step now a w)) /\
  move w (snd (step now a w)) (fst (step now a w)).
Proof.
  intros (Hb & v & Hv & Hf).
  assert (Hcfg : forall w', self w' = self w \/
                            self w' = set_continue true (self w) \/
                            self w' = set_continue false (self w) ->
                            backup_without_reset w').
  { intros w' Hs. unfold backup_without_reset.
    destruct Hs as [-> | [-> | ->]];
      (split; [exact Hb | exists v; split; assumption]). }
  destruct a as [o | |]; cbn.
  2: { split; [apply Hcfg; auto | constructor]. }
  2: { split; [apply Hcfg; auto | constructor]. }
  unfold worker_step.
  destruct (at_pc w) eqn:Epc; cbn.
  - rewrite Hb.
    destruct (_params (self w) !! "backup_size") as [size |]; cbn.
    + split; [apply Hcfg; auto |]. apply move_call_backup; auto.
    + split; [apply Hcfg; auto |].
      apply move_close; [congruence | repeat constructor | reflexivity].
  - destruct o; cbn.
    + rewrite Hv, Hf. cbn. split; [apply Hcfg; auto |].
      apply move_backup_returned; auto.
    + split; [apply Hcfg; auto |].
      apply move_close; [congruence | repeat constructor | reflexivity].
    + split; [apply Hcfg; auto |].
      apply move_close; [congruence | repeat constructor | reflexivity].
    + split; [apply Hcfg; auto |].
      apply move_close; [congruence | repeat constructor | reflexivity].
  - split; [apply Hcfg; auto |]. apply move_wait; auto.
  - destruct (_continue (self w)) eqn:Ec; cbn.
    + split; [apply Hcfg; auto |]. apply move_leave_poll; auto.
    + split; [apply Hcfg; auto |]. apply move_idle.
  - destruct (continueFlag w && has_action "write" (self w)); cbn.
    + destruct (_params (self w) !! "file_path") as [path |]; cbn.
      * split; [apply Hcfg; auto |]. apply move_call_write; auto.
      * split; [apply Hcfg; auto |].
        apply move_close; [congruence | repeat constructor | reflexivity].
    + split; [apply Hcfg; auto |].
      apply move_close; [congruence | repeat constructor | reflexivity].
  - destruct o; cbn; (split; [apply Hcfg; auto |]);
      (apply move_close; [congruence | repeat constructor | reflexivity]).
  - split; [apply Hcfg; auto |]. apply move_idle.
  - split; [apply Hcfg; auto |]. apply move_idle.
Qed.

Lemma phase_le_6 (p : pc) : (phase p <= 6)%nat.
Proof. destruct p; cbn; lia. Qed.

Lemma closing_level (e : event) : closing e = true -> level e = 6%nat.
Proof. destruct e as [[] | [] | | | | | | |]; cbn; congruence. Qed.

Lemma split_head {A} (e x : A) (l pre post : list A) :
  e :: l = pre ++ x :: post ->
  (pre = [] /\ e = x /\ l = post) \/
  (exists pre', pre = e :: pre' /\ l = pre' ++ x :: post).
Proof.
  destruct pre as [| y pre']; cbn; intros H; injection H as -> ->.
  - left. auto.
  - right. eauto.
Qed.

Lemma occurrences_app (p : event -> bool) (l1 l2 : list event) :
  occurrences p (l1 ++ l2) = (occurrences p l1 + occurrences p l2)%nat.
Proof.
  unfold occurrences. rewrite List.filter_app, length_app. reflexivity.
Qed.

Lemma occurrences_none (p : event -> bool) (l : list event) :
  (forall e, In e l -> p e = false) -> occurrences p l = 0%nat.
Proof.
  unfold occurrences. induction l as [| x l IH]; intros H; [reflexivity |].
  cbn. rewrite (H x) by (left; reflexivity).
  apply IH. intros e He. apply H. right. exact He.
Qed.

(** A step never goes back, and what it emits is due at its phase or
    later. *)
Lemma move_mono (w w' : world) (ev : list event) :
  move w ev w' ->
  (phase (at_pc w) <= phase (at_pc w'))%nat /\
  forall e, In e ev -> (phase (at_pc w) <= level e)%nat.
Proof.
  pose proof (phase_le_6 (at_pc w)) as H6.
  intros Hm. destruct Hm as
    [ | | | w' Hp Hc Hp' | cmd w' Hp Hp' | w' Hp Hp' | w' Hp Hp' Hc
      | cmd w' Hp Hp' | ev w' Hp Hcl Hp' ]; cbn.
  - split; [lia |]. intros e [<- | []]. exact H6.
  - split; [lia |]. intros e [<- | []]. exact H6.
  - split; [lia |]. intros e [].
  - rewrite Hp, Hp'. cbn. split; [lia |]. intros e [].
  - rewrite Hp, Hp'. cbn. split; [lia |]. intros e [<- | []]. cbn. lia.
  - rewrite Hp, Hp'. cbn. split; [lia |]. intros e [<- | []]. cbn. lia.
  - rewrite Hp, Hp'. cbn. split; [lia |]. intros e [<- | []]. cbn. lia.
  - rewrite Hp, Hp'. cbn. split; [lia |]. intros e [<- | []]. cbn. lia.
  - rewrite Hp'. split; [exact H6 |]. intros e He.
    rewrite List.Forall_forall in Hcl. rewrite (closing_level e (Hcl e He)).
    exact H6.
Qed.

Lemma level_ge_phase (sch : list action) (w : world) (e : event) :
  backup_without_reset w -> In e (trace now sch w) ->
  (phase (at_pc w) <= level e)%nat.
Proof.
  revert w. induction sch as [| a sch IH]; intros w Hcfg; [intros [] |].
  rewrite trace_cons.
  destruct (step_moves a w Hcfg) as [Hcfg' Hm].
  destruct (move_mono _ _ _ Hm) as [Hle Hev].
  intros Hin. apply in_app_or in Hin as [Hin | Hin].
  - apply Hev. exact Hin.
  - specialize (IH _ Hcfg' Hin). lia.
Qed.

Lemma too_late (sch : list action) (w : world) (e : event) :
  backup_without_reset w -> (level e < phase (at_pc w))%nat ->
  ~ In e (trace now sch w).
Proof.
  intros Hcfg Hlt Hin. pose proof (level_ge_phase sch w e Hcfg Hin). lia.
Qed.

(** Closes a goal in which an event occurs after its phase has
    passed. *)
Ltac late Hcfg Hp :=
  exfalso;
  match goal with
  | Hin : In ?e (trace now ?sch ?w) |- _ =>
    apply (too_late sch w e Hcfg); [rewrite Hp; cbn; lia | exact Hin]
  end.

(** No wait is entered from the polling loop on. *)
Lemma no_wait_late (sch : list action) (w : world) :
  backup_without_reset w -> (3 <= phase (at_pc w))%nat ->
  occurrences is_waiting (trace now sch w) = 0%nat.
Proof.
  intros Hcfg Hp. apply occurrences_none. intros e He.
  destruct e; try reflexivity.
  exfalso. apply (too_late sch w WaitingSignal Hcfg); [cbn; lia | exact He].
Qed.

Lemma closing_not_waiting (ev : list event) :
  Forall (fun e => closing e = true) ev -> occurrences is_waiting ev = 0%nat.
Proof.
  intros H. apply occurrences_none. intros e He.
  rewrite List.Forall_forall in H. specialize (H e He).
  destruct e; cbn in *; congruence.
Qed.

Lemma wait_at_most_once (sch : list action) (w : world) :
  backup_without_reset w ->
  (occurrences is_waiting (trace now sch w) <= 1)%nat.
Proof.
  revert w. induction sch as [| a sch IH]; intros w Hcfg; [cbn; lia |].
  rewrite trace_cons, occurrences_app.
  destruct (step_moves a w Hcfg) as [Hcfg' Hm].
  specialize (IH _ Hcfg').
  destruct Hm as
    [ | | | w' Hp Hc Hp' | cmd w' Hp Hp' | w' Hp Hp' | w' Hp Hp' Hc
      | cmd w' Hp Hp' | ev w' Hp Hcl Hp' ]; cbn; try lia.
  - rewrite (no_wait_late sch w' Hcfg') by (rewrite Hp'; cbn; lia).
    cbn. lia.
  - rewrite (closing_not_waiting ev Hcl). cbn. lia.
Qed.

(** Whenever the wait is entered, the backup call has returned before
    and no write call has been entered. *)
Lemma wait_after_backup (sch : list action) (w : world)
    (pre post : list event) :
  backup_without_reset w ->
  trace now sch w = pre ++ WaitingSignal :: post ->
  ((phase (at_pc w) <= 1)%nat -> In (Returned Backup) pre) /\
  (forall cmd, ~ In (Called Write cmd) pre).
Proof.
  revert w pre. induction sch as [| a sch IH]; intros w pre Hcfg Heq.
  { destruct pre; discriminate. }
  rewrite trace_cons in Heq.
  destruct (step_moves a w Hcfg) as [Hcfg' Hm].
  assert (Hin : In WaitingSignal
                   (snd (step now a w) ++ trace now sch (fst (step now a w))))
    by (rewrite Heq; apply in_elt).
  destruct Hm as
    [ | | | w' Hp Hc Hp' | cmd w' Hp Hp' | w' Hp Hp' | w' Hp Hp' Hc
      | cmd w' Hp Hp' | ev w' Hp Hcl Hp' ]; cbn in Heq, Hin.
  - apply split_head in Heq as [(_ & He & _) | (pre' & -> & Heq)];
      [discriminate |].
    destruct (IH _ _ Hcfg' Heq) as [H1 H2]. split.
    + intros Hle. right. apply H1. exact Hle.
    + intros cmd [Hc | Hc]; [discriminate | exact (H2 cmd Hc)].
  - apply split_head in Heq as [(_ & He & _) | (pre' & -> & Heq)];
      [discriminate |].
    destruct (IH _ _ Hcfg' Heq) as [H1 H2]. split.
    + intros Hle. right. apply H1. exact Hle.
    + intros cmd [Hc | Hc]; [discriminate | exact (H2 cmd Hc)].
  - exact (IH _ _ Hcfg' Heq).
  - late Hcfg' Hp'.
  - apply split_head in Heq as [(_ & He & _) | (pre' & -> & Heq)];
      [discriminate |].
    destruct (IH _ _ Hcfg' Heq) as [H1 H2]. split.
    + intros _. right. apply H1. rewrite Hp'. cbn. lia.
    + intros c [Hc | Hc]; [discriminate | exact (H2 c Hc)].
  - apply split_head in Heq as [(_ & He & _) | (pre' & -> & Heq)];
      [discriminate |].
    destruct (IH _ _ Hcfg' Heq) as [H1 H2]. split.
    + intros _. left. reflexivity.
    + intros c [Hc | Hc]; [discriminate | exact (H2 c Hc)].
  - apply split_head in Heq as [(-> & _ & _) | (pre' & -> & Heq)].
    + split; [rewrite Hp; cbn; lia | intros c []].
    + clear Hin.
      assert (Hin : In WaitingSignal (trace now sch w'))
        by (rewrite Heq; apply in_elt).
      late Hcfg' Hp'.
  - destruct Hin as [Hin | Hin]; [discriminate |]. late Hcfg' Hp'.
  - apply in_app_or in Hin as [Hin | Hin].
    + rewrite List.Forall_forall in Hcl. specialize (Hcl _ Hin). discriminate.
    + late Hcfg' Hp'.
Qed.

(** A write call is entered only after the wait, and only after a
    [continue_ok] that came during the wait. *)
Lemma write_after_continue (sch : list action) (w : world)
    (pre post : list event) (cmd : list value) :
  backup_without_reset w ->
  trace now sch w = pre ++ Called Write cmd :: post ->
  ((phase (at_pc w) <= 2)%nat ->
   exists a c, pre = a ++ WaitingSignal :: c /\ In ContinueOkCalled c) /\
  (at_pc w = PcPoll -> _continue (self w) = false ->
   In ContinueOkCalled pre).
Proof.
  revert w pre. induction sch as [| a sch IH]; intros w pre Hcfg Heq.
  { destruct pre; discriminate. }
  rewrite trace_cons in Heq.
  destruct (step_moves a w Hcfg) as [Hcfg' Hm].
  assert (Hin : In (Called Write cmd)
                   (snd (step now a w) ++ trace now sch (fst (step now a w))))
    by (rewrite Heq; apply in_elt).
  destruct Hm as
    [ | | | w' Hp Hc Hp' | cmd' w' Hp Hp' | w' Hp Hp' | w' Hp Hp' Hc
      | cmd' w' Hp Hp' | ev w' Hp Hcl Hp' ]; cbn in Heq, Hin.
  - apply split_head in Heq as [(_ & He & _) | (pre' & -> & Heq)];
      [discriminate |].
    destruct (IH _ _ Hcfg' Heq) as [H1 H2]. split.
    + intros Hle. destruct (H1 Hle) as (x & c & -> & Hc).
      exists (ContinueOkCalled :: x), c. split; [reflexivity | exact Hc].
    + intros _ _. left. reflexivity.
  - apply split_head in Heq as [(_ & He & _) | (pre' & -> & Heq)];
      [discriminate |].
    destruct (IH _ _ Hcfg' Heq) as [H1 H2]. split.
    + intros Hle. destruct (H1 Hle) as (x & c & -> & Hc).
      exists (AbortCalled :: x), c. split; [reflexivity | exact Hc].
    + intros Hp Hc. right. apply H2; assumption.
  - exact (IH _ _ Hcfg' Heq).
  - split; [rewrite Hp; cbn; lia | congruence].
  - apply split_head in Heq as [(_ & He & _) | (pre' & -> & Heq)];
      [discriminate |].
    destruct (IH _ _ Hcfg' Heq) as [H1 _]. split; [| congruence].
    intros _. destruct H1 as (x & c & -> & Hc); [rewrite Hp'; cbn; lia |].
    exists (Called Backup cmd' :: x), c. split; [reflexivity | exact Hc].
  - apply split_head in Heq as [(_ & He & _) | (pre' & -> & Heq)];
      [discriminate |].
    destruct (IH _ _ Hcfg' Heq) as [H1 _]. split; [| congruence].
    intros _. destruct H1 as (x & c & -> & Hc); [rewrite Hp'; cbn; lia |].
    exists (Returned Backup :: x), c. split; [reflexivity | exact Hc].
  - apply split_head in Heq as [(_ & He & _) | (pre' & -> & Heq)];
      [discriminate |].
    destruct (IH _ _ Hcfg' Heq) as [_ H2]. split; [| congruence].
    intros _. exists [], pre'. split; [reflexivity |].
    apply H2; assumption.
  - split; [rewrite Hp; cbn; lia | congruence].
  - exfalso. apply in_app_or in Hin as [Hin | Hin].
    + rewrite List.Forall_forall in Hcl. specialize (Hcl _ Hin). discriminate.
    + late Hcfg' Hp'.
Qed.

(** Once the backup call has returned, the next thing the worker does
    is to enter the wait. *)
Lemma wait_is_next (sch : list action) (w : world) :
  backup_without_reset w -> at_pc w = PcWaitEnter ->
  (exists e, In e (trace now sch w) /\ by_dialog e = false) ->
  exists b c, trace now sch w = b ++ WaitingSignal :: c /\
              Forall (fun e => by_dialog e = true) b.
Proof.
  revert w. induction sch as [| a sch IH]; intros w Hcfg Hpc (e & He & Hd).
  { destruct He. }
  rewrite trace_cons in He |- *.
  destruct (step_moves a w Hcfg) as [Hcfg' Hm].
  destruct Hm as
    [ | | | w' Hp Hc Hp' | cmd' w' Hp Hp' | w' Hp Hp' | w' Hp Hp' Hc
      | cmd' w' Hp Hp' | ev w' Hp Hcl Hp' ]; try congruence.
  - cbn in He |- *. destruct He as [<- | He]; [discriminate |].
    destruct (IH _ Hcfg' Hpc (ex_intro _ e (conj He Hd)))
      as (b & c & -> & Hb).
    exists (ContinueOkCalled :: b), c. split; [reflexivity |].
    constructor; [reflexivity | exact Hb].
  - cbn in He |- *. destruct He as [<- | He]; [discriminate |].
    destruct (IH _ Hcfg' Hpc (ex_intro _ e (conj He Hd)))
      as (b & c & -> & Hb).
    exists (AbortCalled :: b), c. split; [reflexivity |].
    constructor; [reflexivity | exact Hb].
  - cbn in He |- *. apply IH; [exact Hcfg' | exact Hpc | eauto].
  - exists [], (trace now sch w'). split; [reflexivity | constructor].
Qed.

Lemma wait_follows_backup (sch : list action) (w : world)
    (pre post : list event) :
  backup_without_reset w ->
  trace now sch w = pre ++ Returned Backup :: post ->
  (exists e, In e post /\ by_dialog e = false) ->
  exists b c, post = b ++ WaitingSignal :: c /\
              Forall (fun e => by_dialog e = true) b.
Proof.
  revert w pre. induction sch as [| a sch IH]; intros w pre Hcfg Heq Hpost.
  { destruct pre; discriminate. }
  rewrite trace_cons in Heq.
  destruct (step_moves a w Hcfg) as [Hcfg' Hm].
  assert (Hin : In (Returned Backup)
                   (snd (step now a w) ++ trace now sch (fst (step now a w))))
    by (rewrite Heq; apply in_elt).
  destruct Hm as
    [ | | | w' Hp Hc Hp' | cmd' w' Hp Hp' | w' Hp Hp' | w' Hp Hp' Hc
      | cmd' w' Hp Hp' | ev w' Hp Hcl Hp' ]; cbn in Heq, Hin.
  - apply split_head in Heq as [(_ & He & _) | (pre' & -> & Heq)];
      [discriminate | exact (IH _ _ Hcfg' Heq Hpost)].
  - apply split_head in Heq as [(_ & He & _) | (pre' & -> & Heq)];
      [discriminate | exact (IH _ _ Hcfg' Heq Hpost)].
  - exact (IH _ _ Hcfg' Heq Hpost).
  - exact (IH _ _ Hcfg' Heq Hpost).
  - apply split_head in Heq as [(_ & He & _) | (pre' & -> & Heq)];
      [discriminate | exact (IH _ _ Hcfg' Heq Hpost)].
  - apply split_head in Heq as [(_ & _ & Heq) | (pre' & -> & Heq)].
    + rewrite <- Heq in *. apply wait_is_next; assumption.
    + clear Hin.
      assert (Hin : In (Returned Backup) (trace now sch w'))
        by (rewrite Heq; apply in_elt).
      late Hcfg' Hp'.
  - destruct Hin as [Hin | Hin]; [discriminate |]. late Hcfg' Hp'.
  - destruct Hin as [Hin | Hin]; [discriminate |]. late Hcfg' Hp'.
  - exfalso. apply in_app_or in Hin as [Hin | Hin].
    + rewrite List.Forall_forall in Hcl. specialize (Hcl _ Hin). discriminate.
    + late Hcfg' Hp'.
Qed.

Lemma has_action_set_continue (name : string) (b : bool) (o : t) :
  has_action name (set_continue b o) = has_action name o.
Proof. reflexivity. Qed.

(** The schedule in which nothing fails and the dialog answers the
    wait with [continue_ok]. *)
Lemma write_reached (o : t) (flag : bool) (auto_reset size path : value) :
  has_action "backup" o = true -> has_action "write" o = true ->
  _params o !! "auto_reset" = Some auto_reset -> truthy auto_reset = false ->
  _params o !! "backup_size" = Some size ->
  _params o !! "file_path" = Some path ->
  exists cmd,
    trace now [Work Returns; Work Returns; Work Returns; CallContinueOk;
               Work Returns; Work Returns] (start o flag) =
      [Called Backup (command o ++
                      [VStr "read_flash"; VStr "0x00000"; size;
                       VStr ("backup_" +:+ now +:+ ".bin")]);
       Returned Backup; WaitingSignal; ContinueOkCalled;
       Called Write cmd].
Proof.
  intros Hb Hw Ha Hf Hs Hp.
  unfold trace. cbn -[has_action]. unfold worker_step at 1.
  cbn -[has_action]. rewrite Hb, Hs. cbn -[has_action].
  rewrite Ha, Hf. cbn -[has_action].
  rewrite !has_action_set_continue, Hw, Hp. cbn -[has_action].
  eexists. reflexivity.
Qed.

(** C2. With a backup stage, a write stage and [auto_reset] false, in
    every interleaving of the worker with the dialog: the wait is
    entered at most once; it is entered after the backup call has
    returned and before any write call; once the backup call has
    returned, entering the wait is the first thing the worker does; a
    write call is entered only after a [continue_ok] that came after the
    wait began; and with that [continue_ok], nothing failing and no
    [abort], the write call is indeed entered. *)
Theorem wait_once_between_backup_and_write
    (o : t) (flag : bool) (auto_reset size path : value)
    (sch : list action) :
  has_action "backup" o = true -> has_action "write" o = true ->
  _params o !! "auto_reset" = Some auto_reset -> truthy auto_reset = false ->
  _params o !! "backup_size" = Some size ->
  _params o !! "file_path" = Some path ->
  let tr := trace now sch (start o flag) in
  (occurrences is_waiting tr <= 1)%nat /\
  (forall pre post, tr = pre ++ WaitingSignal :: post ->
     In (Returned Backup) pre /\ forall cmd, ~ In (Called Write cmd) pre) /\
  (forall pre post, tr = pre ++ Returned Backup :: post ->
     (exists e, In e post /\ by_dialog e = false) ->
     exists b c, post = b ++ WaitingSignal :: c /\
                 Forall (fun e => by_dialog e = true) b) /\
  (forall pre cmd post, tr = pre ++ Called Write cmd :: post ->
     exists a c, pre = a ++ WaitingSignal :: c /\ In ContinueOkCalled c) /\
  (exists cmd,
     In (Called Write cmd)
        (trace now [Work Returns; Work Returns; Work Returns;
                    CallContinueOk; Work Returns; Work Returns]
               (start o flag))).
Proof.
  intros Hb Hw Ha Hf Hs Hp tr.
  assert (Hcfg : backup_without_reset (start o flag)).
  { split; [exact Hb | exists auto_reset; split; assumption]. }
  split; [apply wait_at_most_once; exact Hcfg |].
  split; [| split; [| split]].
  - intros pre post Heq.
    destruct (wait_after_backup sch _ pre post Hcfg Heq) as [H1 H2].
    split; [apply H1; cbn; lia | exact H2].
  - intros pre post Heq Hpost.
    exact (wait_follows_backup sch _ pre post Hcfg Heq Hpost).
  - intros pre cmd post Heq.
    destruct (write_after_continue sch _ pre post cmd Hcfg Heq) as [H1 _].
    apply H1. cbn. lia.
  - destruct (write_reached o flag auto_reset size path Hb Hw Ha Hf Hs Hp)
      as [cmd Hcmd].
    exists cmd. rewrite Hcmd. cbn. tauto.
Qed.

End Pause.

Lemma pause_witness :
  let sch := [ESPWorker.Work ESPWorker.Returns;
              ESPWorker.CallContinueOk;
              ESPWorker.Work ESPWorker.Returns;
              ESPWorker.Work ESPWorker.Returns;
              ESPWorker.Work ESPWorker.Returns;
              ESPWorker.CallContinueOk;
              ESPWorker.Work ESPWorker.Returns;
              ESPWorker.Work ESPWorker.Returns;
              ESPWorker.Work ESPWorker.Returns] in
  let tr := ESPWorker.trace sample_now sch
              (ESPWorker.start sample_worker false) in
  ProcessDialog.esp (ProcessDialog.init sample_port sample_file_kwargs) =
    Some sample_worker /\
  ESPWorker.has_action "backup" sample_worker = true /\
  ESPWorker.has_action "write" sample_worker = true /\
  ESPWorker._params sample_worker !! "auto_reset" = Some (VBool false) /\
  truthy (VBool false) = false /\
  ESPWorker._params sample_worker !! "backup_size" = Some (VStr "0x100000") /\
  ESPWorker._params sample_worker !! "file_path" = Some (VStr "tasmota.bin") /\
  (ESPWorker.occurrences ESPWorker.is_waiting tr <= 1)%nat /\
  (forall pre cmd post,
     tr = pre ++ ESPWorker.Called ESPWorker.Write cmd :: post ->
     exists a c, pre = a ++ ESPWorker.WaitingSignal :: c /\
                 In ESPWorker.ContinueOkCalled c).
Proof.
  intros sch tr.
  pose proof (wait_once_between_backup_and_write sample_now sample_worker
                false (VBool false) (VStr "0x100000") (VStr "tasmota.bin")
                sch eq_refl eq_refl eq_refl eq_refl eq_refl eq_refl)
    as (Honce & _ & _ & Hwrite & _).
  do 7 (split; [reflexivity |]).
  split; [exact Honce | exact Hwrite].
Defined.

(** ** Text around a JSON object *)

Lemma count_byte_nonneg (b : byte) (l : list byte) : 0 <= count_byte b l.
Proof.
  induction l as [| x l IH]; cbn; [lia |].
  destruct (Byte.eqb x b); lia.
Qed.

Lemma count_byte_app (b : byte) (l1 l2 : list byte) :
  count_byte b (l1 ++ l2) = count_byte b l1 + count_byte b l2.
Proof. induction l1 as [| x l1 IH]; cbn; [reflexivity | rewrite IH; lia]. Qed.

Lemma append_cons (x : ascii) (s t : string) :
  String x s +:+ t = String x (s +:+ t).
Proof. reflexivity. Qed.

Lemma append_nil_l (s : string) : EmptyString +:+ s = s.
Proof. reflexivity. Qed.

Lemma append_nil_r (s : string) : s +:+ EmptyString = s.
Proof.
  induction s as [| x s IH]; [reflexivity |].
  rewrite append_cons, IH. reflexivity.
Qed.

Lemma append_assoc (s1 s2 s3 : string) :
  (s1 +:+ s2) +:+ s3 = s1 +:+ (s2 +:+ s3).
Proof.
  induction s1 as [| x s1 IH]; [reflexivity |].
  rewrite !append_cons, IH. reflexivity.
Qed.

Lemma string_of_list_byte_cons (x : byte) (l : list byte) :
  string_of_list_byte (x :: l) =
    String (ascii_of_byte x) (string_of_list_byte l).
Proof. reflexivity. Qed.

Lemma string_of_list_byte_app (l1 l2 : list byte) :
  string_of_list_byte (l1 ++ l2) =
    string_of_list_byte l1 +:+ string_of_list_byte l2.
Proof.
  induction l1 as [| x l1 IH]; [reflexivity |].
  cbn [app]. rewrite !string_of_list_byte_cons, IH, append_cons.
  reflexivity.
Qed.

Lemma remove_char_app (c : ascii) (s1 s2 : string) :
  remove_char c (s1 +:+ s2) = remove_char c s1 +:+ remove_char c s2.
Proof.
  induction s1 as [| x s1 IH]; [reflexivity |].
  rewrite append_cons. simpl. destruct (Ascii.eqb x c).
  - exact IH.
  - rewrite append_cons, IH. reflexivity.
Qed.

Lemma strip_newlines_app (s1 s2 : string) :
  strip_newlines (s1 +:+ s2) = strip_newlines s1 +:+ strip_newlines s2.
Proof. unfold strip_newlines. rewrite !remove_char_app. reflexivity. Qed.

Lemma occurs_app (c : ascii) (s1 s2 : string) :
  occurs c (s1 +:+ s2) = occurs c s1 || occurs c s2.
Proof.
  induction s1 as [| x s1 IH]; [reflexivity |].
  rewrite append_cons. simpl. rewrite IH. apply orb_assoc.
Qed.

Lemma occurs_remove_same (c : ascii) (s : string) :
  occurs c (remove_char c s) = false.
Proof.
  induction s as [| x s IH]; simpl; [reflexivity |].
  destruct (Ascii.eqb x c) eqn:E; simpl; [exact IH | rewrite E; exact IH].
Qed.

Lemma occurs_remove_other (c c' : ascii) (s : string) :
  occurs c s = false -> occurs c (remove_char c' s) = false.
Proof.
  induction s as [| x s IH]; simpl; [reflexivity |].
  intros H. apply orb_false_iff in H as [Hx Hs].
  destruct (Ascii.eqb x c'); simpl; [auto | rewrite Hx; auto].
Qed.

(** A byte that does not occur in [l] does not occur in its text. *)
Lemma occurs_string_of_list_byte (b : byte) (l : list byte) :
  count_byte b l = 0 ->
  occurs (ascii_of_byte b) (string_of_list_byte l) = false.
Proof.
  induction l as [| x l IH]; [reflexivity |].
  rewrite string_of_list_byte_cons. cbn [count_byte occurs].
  intros H. pose proof (count_byte_nonneg b l) as Hn.
  destruct (Byte.eqb x b) eqn:E; [lia |].
  rewrite IH by lia. rewrite orb_false_r.
  apply Ascii.eqb_neq. intros Heq.
  apply (f_equal byte_of_ascii) in Heq. rewrite !byte_of_ascii_of_byte in Heq.
  subst x. rewrite (Byte.byte_dec_lb eq_refl) in E. discriminate.
Qed.

Lemma occurs_stripped (b : byte) (l : list byte) :
  count_byte b l = 0 ->
  occurs (ascii_of_byte b) (strip_newlines (string_of_list_byte l)) = false.
Proof.
  intros H. unfold strip_newlines.
  do 2 apply occurs_remove_other. apply occurs_string_of_list_byte. exact H.
Qed.

Lemma lines_acc_one_line (cur s : string) :
  occurs LF s = false -> lines_acc cur s = [cur +:+ s].
Proof.
  revert cur. induction s as [| x s IH]; intros cur; simpl.
  - intros _. rewrite append_nil_r. reflexivity.
  - intros H. apply orb_false_iff in H as [Hx Hs]. rewrite Hx.
    rewrite IH by exact Hs. rewrite append_assoc, append_cons, append_nil_l.
    reflexivity.
Qed.

Lemma from_open_skip (p s : string) :
  occurs "{" p = false -> from_open (p +:+ s) = from_open s.
Proof.
  induction p as [| x p IH]; [reflexivity |].
  rewrite append_cons. simpl.
  intros H. apply orb_false_iff in H as [Hx Hp]. rewrite Hx. auto.
Qed.

Lemma upto_last_close_app (s q : string) :
  upto_last_close (s +:+ q) =
    match upto_last_close q with
    | Some p => Some (s +:+ p)
    | None => upto_last_close s
    end.
Proof.
  induction s as [| x s IH].
  - rewrite append_nil_l. destruct (upto_last_close q); reflexivity.
  - rewrite append_cons. simpl. rewrite IH.
    destruct (upto_last_close q); reflexivity.
Qed.

Lemma upto_last_close_none (q : string) :
  occurs "}" q = false -> upto_last_close q = None.
Proof.
  induction q as [| x q IH]; simpl; [reflexivity |].
  intros H. apply orb_false_iff in H as [Hx Hq].
  rewrite IH by exact Hq. rewrite Hx. reflexivity.
Qed.

(** In a text without line feeds whose braces all lie in [obj], which
    starts with an opening and ends with a closing brace, the pattern
    finds [obj] and nothing else. *)
Lemma findall_embedded (p q body : string) :
  occurs LF (p +:+ String "{" body +:+ q) = false ->
  occurs "{" p = false -> occurs "}" q = false ->
  upto_last_close body = Some body ->
  json_match_findall (p +:+ String "{" body +:+ q) = [String "{" body].
Proof.
  intros Hlf Hp Hq Hbody. unfold json_match_findall.
  rewrite lines_acc_one_line by exact Hlf. rewrite append_nil_l.
  change (omap match_line [p +:+ String "{" body +:+ q])
    with (match match_line (p +:+ String "{" body +:+ q) with
          | Some m => [m]
          | None => []
          end).
  unfold match_line. rewrite from_open_skip by exact Hp.
  rewrite append_cons. simpl.
  rewrite upto_last_close_app, (upto_last_close_none q Hq), Hbody.
  reflexivity.
Qed.

(** ** The frame accumulator *)

Section Framing.

Import PinConfigDialog.

Variable J : Type.
Variable json_loads : string -> option J.

Lemma close_window_effect (d : t J) :
  exists d', close_window J d = (d', inr tt) /\
    brackets d' = brackets d /\ data d' = Some [] /\
    jsons d' = jsons d /\ emitted d' = S (emitted d).
Proof.
  unfold close_window, components_done_emit, read_gpios, bind, modify, gets.
  cbn. destruct (read_gpios_connected J d); cbn.
  - destruct (components J d); cbn; eexists; repeat split; reflexivity.
  - eexists; repeat split; reflexivity.
Qed.

(** [read_json] in one piece. *)
Lemma read_json_unfold (d : t J) (chunk : list byte) (o c : Z)
    (buf : list byte) :
  brackets d !! "{" = Some o -> brackets d !! "}" = Some c ->
  data d = Some buf ->
  let d1 := accumulated o c buf chunk d in
  read_json J json_loads chunk d =
    if (fst (counters_after o c chunk) - snd (counters_after o c chunk) =? 0)%Z
    then
      match decode_utf8 (buf ++ chunk) with
      | None => (d1, inl UnicodeDecodeError)
      | Some text =>
        match json_match_findall (strip_newlines text) with
        | [] => close_window J d1
        | first :: _ =>
          match json_loads first with
          | None => (d1, inl JSONDecodeError)
          | Some v => close_window J (append_json J v d1)
          end
        end
      end
    else (d1, inr tt).
Proof.
  intros Ho Hc Hd d1. subst d1.
  unfold read_json, accumulated, counters_after.
  set (o' := o + count_byte bracket_open chunk).
  set (n := count_byte bracket_close chunk).
  cbn [fst snd].
  unfold bind at 1. unfold getitem at 1. rewrite Ho.
  unfold bind at 1. unfold setitem at 1, modify at 1.
  unfold bind at 1. unfold getitem at 1. cbn [brackets set_brackets].
  rewrite lookup_insert_eq. fold o'.
  assert (Hne : "{" <> "}") by discriminate.
  assert (Htail : forall d1 : t J, data d1 = Some (buf ++ chunk) ->
    forall b : bool,
    (if b then
       (buf0 <- get_data J;;
        text <- of_option J UnicodeDecodeError (decode_utf8 buf0);;
        _ <- match json_match_findall (strip_newlines text) with
             | [] => ret ()
             | first :: _ =>
               v <- of_option J JSONDecodeError (json_loads first);;
               modify (append_json J v)
             end;;
        _ <- components_done_emit J;; modify (set_data J []))%py
     else ret ()) d1 =
    (if b then
       match decode_utf8 (buf ++ chunk) with
       | Some text =>
         match json_match_findall (strip_newlines text) with
         | [] => close_window J d1
         | first :: _ =>
           match json_loads first with
           | Some v => close_window J (append_json J v d1)
           | None => (d1, inl JSONDecodeError)
           end
         end
       | None => (d1, inl UnicodeDecodeError)
       end
     else (d1, inr tt))).
  { intros d1 Hd1 [|]; [| reflexivity].
    unfold bind at 1. unfold get_data at 1. rewrite Hd1.
    unfold bind at 1.
    destruct (decode_utf8 (buf ++ chunk)) as [text |]; cbn; [| reflexivity].
    unfold bind at 1.
    destruct (json_match_findall (strip_newlines text)) as [| first rest];
      cbn; [reflexivity |].
    unfold bind at 1.
    destruct (json_loads first) as [v |]; cbn; reflexivity. }
  destruct (0 <? o')%Z.
  - unfold bind at 1. unfold setitem at 1, modify at 1.
    unfold bind at 1. unfold getitem at 1. cbn [brackets set_brackets].
    rewrite lookup_insert_eq.
    unfold bind at 1. unfold setitem at 1, modify at 1.
    cbn [brackets set_brackets]. rewrite insert_insert_eq.
    unfold bind at 1. unfold get_data at 1. cbn [data set_brackets].
    rewrite Hd.
    unfold bind at 1. unfold modify at 1.
    unfold bind at 1. unfold getitem at 1.
    cbn [brackets set_brackets set_data].
    rewrite lookup_insert_ne, lookup_insert_eq by congruence.
    unfold bind at 1. unfold getitem at 1.
    cbn [brackets set_brackets set_data].
    rewrite lookup_insert_eq.
    apply Htail. reflexivity.
  - unfold bind at 1. unfold ret at 1.
    unfold bind at 1. unfold getitem at 1. cbn [brackets set_brackets].
    rewrite lookup_insert_ne, Hc by congruence.
    unfold bind at 1. unfold setitem at 1, modify at 1.
    cbn [brackets set_brackets].
    unfold bind at 1. unfold get_data at 1. cbn [data set_brackets].
    rewrite Hd.
    unfold bind at 1. unfold modify at 1.
    unfold bind at 1. unfold getitem at 1.
    cbn [brackets set_brackets set_data].
    rewrite lookup_insert_ne, lookup_insert_eq by congruence.
    unfold bind at 1. unfold getitem at 1.
    cbn [brackets set_brackets set_data].
    rewrite lookup_insert_eq.
    apply Htail. reflexivity.
Qed.

(** Whatever branch a call takes, the counters it leaves are those of
    lines 341-344: completing a window does not touch them. *)
Lemma read_json_brackets (d : t J) (chunk buf : list byte) (o c : Z) :
  brackets d !! "{" = Some o -> brackets d !! "}" = Some c ->
  data d = Some buf ->
  open_count (fst (read_json J json_loads chunk d)) =
    Some (fst (counters_after o c chunk)) /\
  close_count (fst (read_json J json_loads chunk d)) =
    Some (snd (counters_after o c chunk)).
Proof.
  intros Ho Hc Hd.
  assert (Hacc : forall d1 : t J,
            brackets d1 = brackets (accumulated o c buf chunk d) ->
            open_count d1 = Some (fst (counters_after o c chunk)) /\
            close_count d1 = Some (snd (counters_after o c chunk))).
  { intros d1 Hb. unfold open_count, close_count. rewrite Hb. cbn. split.
    - rewrite lookup_insert_ne by discriminate. apply lookup_insert_eq.
    - apply lookup_insert_eq. }
  rewrite (read_json_unfold d chunk o c buf Ho Hc Hd).
  destruct (_ =? 0)%Z; [| apply Hacc; reflexivity].
  destruct (decode_utf8 (buf ++ chunk)) as [text |];
    [| apply Hacc; reflexivity].
  destruct (json_match_findall (strip_newlines text)) as [| first rest].
  - destruct (close_window_effect (accumulated o c buf chunk d))
      as (d' & -> & Hb & _). apply Hacc. exact Hb.
  - destruct (json_loads first) as [v |]; [| apply Hacc; reflexivity].
    destruct (close_window_effect
                (append_json J v (accumulated o c buf chunk d)))
      as (d' & -> & Hb & _). apply Hacc. exact Hb.
Qed.

(** Without a buffer a call ends at line 345, with the counters
    updated. *)
Lemma read_json_without_buffer (d : t J) (chunk : list byte) (o c : Z) :
  brackets d !! "{" = Some o -> brackets d !! "}" = Some c ->
  data d = None ->
  read_json J json_loads chunk d = (counted o c chunk d, inl AttributeError).
Proof.
  intros Ho Hc Hd. unfold read_json, counted, counters_after. cbn [fst snd].
  unfold bind at 1. unfold getitem at 1. rewrite Ho.
  unfold bind at 1. unfold setitem at 1, modify at 1.
  unfold bind at 1. unfold getitem at 1. cbn [brackets set_brackets].
  rewrite lookup_insert_eq.
  destruct (0 <? o + count_byte bracket_open chunk)%Z.
  - unfold bind at 1. unfold setitem at 1, modify at 1.
    unfold bind at 1. unfold getitem at 1. cbn [brackets set_brackets].
    rewrite lookup_insert_eq.
    unfold bind at 1. unfold setitem at 1, modify at 1.
    unfold bind at 1. unfold get_data at 1. cbn [data set_brackets].
    rewrite Hd. cbn [brackets set_brackets]. rewrite insert_insert_eq.
    reflexivity.
  - unfold bind at 1. unfold ret at 1.
    unfold bind at 1. unfold getitem at 1. cbn [brackets set_brackets].
    rewrite lookup_insert_ne, Hc by discriminate.
    unfold bind at 1. unfold setitem at 1, modify at 1.
    unfold bind at 1. unfold get_data at 1. cbn [data set_brackets].
    rewrite Hd. reflexivity.
Qed.

(** With or without a buffer, and whatever branch a call takes, the
    counters it leaves are those of lines 341-344. *)
Lemma read_json_counters (d : t J) (chunk : list byte) (o c : Z) :
  brackets d !! "{" = Some o -> brackets d !! "}" = Some c ->
  open_count (fst (read_json J json_loads chunk d)) =
    Some (fst (counters_after o c chunk)) /\
  close_count (fst (read_json J json_loads chunk d)) =
    Some (snd (counters_after o c chunk)).
Proof.
  intros Ho Hc. destruct (data d) as [buf |] eqn:Hd.
  - exact (read_json_brackets d chunk buf o c Ho Hc Hd).
  - rewrite (read_json_without_buffer d chunk o c Ho Hc Hd).
    unfold open_count, close_count, counted. cbn. split.
    + rewrite lookup_insert_ne by discriminate. apply lookup_insert_eq.
    + apply lookup_insert_eq.
Qed.

(** X26. Once the open counter is positive, the close counter a call
    leaves is the number of closing braces of that chunk alone: the
    closing braces of earlier chunks are forgotten. Lines 341-344 run
    before the buffer is touched, so this holds whether or not
    [self.data] has a value and however the call ends. *)
Lemma close_counter_restarts (d : t J) (chunk : list byte) (o c : Z) :
  brackets d !! "{" = Some o -> brackets d !! "}" = Some c -> 0 < o ->
  close_count (fst (read_json J json_loads chunk d)) =
    Some (count_byte bracket_close chunk).
Proof.
  intros Ho Hc Hpos.
  destruct (read_json_counters d chunk o c Ho Hc) as [_ ->].
  unfold counters_after. cbn [snd].
  pose proof (count_byte_nonneg bracket_open chunk) as Hn.
  destruct (Z.ltb_spec 0 (o + count_byte bracket_open chunk)); [| lia].
  reflexivity.
Qed.

(** X24. The class never gives [self.data] a value before the first
    chunk arrives: on a dialog fresh from [__init__] and
    [read_init_config] the first call raises [AttributeError] at line
    345, whatever the chunk. *)
Lemma first_read_without_buffer (chunk : list byte) :
  raised (read_json J json_loads chunk (read_init_config J (new J))) =
    Some AttributeError.
Proof.
  unfold read_json.
  unfold bind at 1. unfold getitem at 1.
  change (brackets (read_init_config J (new J)) !! "{") with (Some 0).
  cbn iota.
  unfold bind at 1. unfold setitem at 1, modify at 1.
  unfold bind at 1. unfold getitem at 1. cbn [brackets set_brackets].
  rewrite lookup_insert_eq.
  destruct (0 <? 0 + count_byte bracket_open chunk)%Z.
  - unfold bind at 1. unfold setitem at 1, modify at 1.
    unfold bind at 1. unfold getitem at 1. cbn [brackets set_brackets].
    rewrite lookup_insert_eq.
    unfold bind at 1. unfold setitem at 1, modify at 1.
    unfold bind at 1. unfold get_data at 1. reflexivity.
  - unfold bind at 1. unfold ret at 1.
    unfold bind at 1. unfold getitem at 1. cbn [brackets set_brackets].
    rewrite lookup_insert_ne by discriminate.
    change (brackets (read_init_config J (new J)) !! "}")
      with (Some (-1)).
    cbn iota.
    unfold bind at 1. unfold setitem at 1, modify at 1.
    unfold bind at 1. unfold get_data at 1. reflexivity.
Qed.

(** The first call on the dialog as the class sets it up. *)
Lemma first_read (chunk : list byte) :
  read_json J json_loads chunk (initial J) =
    (counted 0 (-1) chunk (initial J), inl AttributeError).
Proof.
  apply read_json_without_buffer; reflexivity.
Qed.





(** C9 (the code departs from the claim). The chunk that holds the
    object [{"a": {"b": 1}}], with any text around it, gives no message
    on the dialog as the class sets it up: the braces are counted and
    line 345 raises [AttributeError], [self.data] having no value. *)
Theorem nested_object_raises (prefix suffix : list byte) :
  let chunk := prefix ++ nested_object ++ suffix in
  let r := read_json J json_loads chunk (initial J) in
  raised r = Some AttributeError /\
  jsons (fst r) = [] /\ emitted (fst r) = 0%nat /\
  written (fst r) = [line "GPIOs"].
Proof.
  intros chunk r. subst r. rewrite first_read. repeat split.
Qed.

End Framing.


(** * Further properties *)

(** ** The worker's runs in general *)

Section Runs.

Import ESPWorker ESPRun.

Variable now : string.

(** Splits a step into its cases: who moves, where the worker stands, how
    the driver call ends, and every test [run] makes. *)
Ltac step_cases a w :=
  destruct a as [[] | |]; cbn -[has_action];
  try (unfold worker_step, after_raise;
       destruct (at_pc w) eqn:?Epc; cbn -[has_action];
       repeat match goal with
         | |- context [if has_action ?n ?x then _ else _] =>
           destruct (has_action n x) eqn:?
         | |- context [match _params ?x !! ?k with _ => _ end] =>
           destruct (_params x !! k) eqn:?
         | |- context [if negb (truthy ?v) then _ else _] =>
           destruct (truthy v) eqn:?
         | |- context [if negb (_continue ?x) then _ else _] =>
           destruct (_continue x) eqn:?
         | |- context [if continueFlag ?x && _ then _ else _] =>
           destruct (continueFlag x) eqn:?
         | |- context [if ?b && has_action ?n ?x then _ else _] =>
           destruct (has_action n x) eqn:?
         end; cbn -[has_action]).

Lemma step_keeps_actions (a : action) (w : world) (name : string) :
  has_action name (self (fst (step now a w))) = has_action name (self w) /\
  _params (self (fst (step now a w))) = _params (self w).
Proof. step_cases a w; split; reflexivity. Qed.

Lemma step_without_write (a : action) (w : world) :
  has_action "write" (self w) = false ->
  Forall (fun e => is_write_call e = false) (snd (step now a w)).
Proof.
  intros Hw. step_cases a w; repeat constructor; congruence.
Qed.

(** X1. Without an image to write ('write' is not among the actions) the
    worker never calls [write_flash], whatever else was asked for: 'erase'
    on its own erases nothing, since the erase is only an option of the
    write command. *)
Theorem erase_needs_write (sch : list action) (w : world) :
  has_action "write" (self w) = false ->
  forall s cmd, In (Called s cmd) (trace now sch w) -> s = Backup.
Proof.
  intros Hw s cmd Hin.
  assert (Hall : Forall (fun e => is_write_call e = false) (trace now sch w)).
  { clear Hin. revert w Hw. induction sch as [| a sch IH]; intros w Hw.
    - constructor.
    - rewrite trace_cons. apply Forall_app. split.
      + apply step_without_write. exact Hw.
      + apply IH. rewrite (proj1 (step_keeps_actions a w "write")). exact Hw. }
  rewrite List.Forall_forall in Hall. specialize (Hall _ Hin).
  destruct s; [reflexivity | discriminate].
Qed.

Lemma step_never_waits (a : action) (w : world) :
  never_waits w ->
  never_waits (fst (step now a w)) /\
  Forall (fun e => is_waiting e = false) (snd (step now a w)).
Proof.
  intros (Hw & Hp & Hcfg).
  assert (Hkeep : forall w', at_pc w' <> PcWaitEnter -> at_pc w' <> PcPoll ->
                   (has_action "backup" (self w) = false ->
                    at_pc w <> PcBackup -> at_pc w' <> PcBackup) ->
                   (forall name, has_action name (self w') =
                                 has_action name (self w)) ->
                   _params (self w') = _params (self w) -> never_waits w').
  { intros w' H1 H2 Hb Ha Hpar. repeat split; try assumption.
    rewrite Ha, Hpar.
    destruct Hcfg as [[Hnb Hpc] | Har]; [left | right; exact Har].
    split; [exact Hnb | exact (Hb Hnb Hpc)]. }
  step_cases a w;
    try congruence;
    try (split; [apply Hkeep; cbn; solve [congruence | reflexivity]
                | repeat constructor]).
  all: exfalso; destruct Hcfg as [[Hnb Hpc] | (ar & Har & Htr)]; congruence.
Qed.

(** X2. When there is no backup to make, or [auto_reset] is set, the
    worker never emits [waiting]: no prompt to power-cycle the device is
    shown, in any interleaving with the dialog. *)
Theorem no_wait_without_backup_or_with_auto_reset
    (sch : list action) (o : t) (flag : bool) :
  (has_action "backup" o = false \/
   exists auto_reset, _params o !! "auto_reset" = Some auto_reset /\
                      truthy auto_reset = true) ->
  ~ In WaitingSignal (trace now sch (start o flag)).
Proof.
  intros Hcfg Hin.
  assert (Hall : forall w, never_waits w ->
            Forall (fun e => is_waiting e = false) (trace now sch w)).
  { clear Hin. induction sch as [| a sch IH]; intros w Hw.
    - constructor.
    - rewrite trace_cons. destruct (step_never_waits a w Hw) as [Hw' Hev].
      apply Forall_app. split; [exact Hev | apply IH; exact Hw']. }
  specialize (Hall (start o flag)).
  rewrite List.Forall_forall in Hall.
  enough (is_waiting WaitingSignal = false) by discriminate.
  apply Hall; [| exact Hin].
  repeat split; cbn; try discriminate.
  destruct Hcfg as [Hnb | Har]; [left | right; exact Har].
  split; [exact Hnb | discriminate].
Qed.

(** Once [run] is left, only the dialog's calls show in the trace. *)
Lemma step_when_ended (a : action) (w : world) :
  ended w ->
  ended (fst (step now a w)) /\
  Forall (fun e => by_dialog e = true) (snd (step now a w)).
Proof.
  intros [Hp | Hp]; destruct a as [o | |]; cbn;
    unfold worker_step, ended; rewrite ?Hp; cbn;
    (split; [tauto | repeat constructor]).
Qed.

Lemma ended_quiet (sch : list action) (w : world) :
  ended w -> Forall (fun e => by_dialog e = true) (trace now sch w).
Proof.
  revert w. induction sch as [| a sch IH]; intros w Hw.
  - constructor.
  - rewrite trace_cons. destruct (step_when_ended a w Hw) as [Hw' Hev].
    apply Forall_app. split; [exact Hev | apply IH; exact Hw'].
Qed.

Lemma app_eq_elt {A} (ev tr pre post : list A) (x : A) :
  ev ++ tr = pre ++ x :: post ->
  (exists pre', pre = ev ++ pre' /\ tr = pre' ++ x :: post) \/
  (exists e2, ev = pre ++ x :: e2 /\ post = e2 ++ tr).
Proof.
  revert pre. induction ev as [| e ev IH]; intros pre H.
  - left. exists pre. split; [reflexivity | exact H].
  - destruct pre as [| p pre]; cbn in H; injection H as <- H.
    + right. exists ev. split; [reflexivity | congruence].
    + destruct (IH _ H) as [(pre' & -> & Htr) | (e2 & -> & Hpost)].
      * left. exists pre'. split; [reflexivity | exact Htr].
      * right. exists e2. split; [reflexivity | exact Hpost].
Qed.

(** A step either emits no final event, or leaves [run] and emits one of
    the six endings. *)
Lemma step_shape (a : action) (w : world) :
  Forall (fun e => final e = false) (snd (step now a w)) \/
  (ended (fst (step now a w)) /\ last_events (snd (step now a w))).
Proof.
  step_cases a w;
    first [ solve [left; repeat constructor]
          | solve [right; split; [unfold ended; cbn; tauto |];
                   econstructor; tauto] ].
Qed.

(** Where a final event sits in a trace: in the ending emitted by the
    step that leaves [run], followed by calls of the dialog only. *)
Lemma final_event_place (sch : list action) (w : world)
    (pre post : list event) (x : event) :
  trace now sch w = pre ++ x :: post -> final x = true ->
  exists e1 e2 q, last_events (e1 ++ x :: e2) /\ post = e2 ++ q /\
                  Forall (fun e => by_dialog e = true) q.
Proof.
  revert w pre. induction sch as [| a sch IH]; intros w pre Heq Hx.
  { destruct pre; discriminate. }
  rewrite trace_cons in Heq.
  destruct (step_shape a w) as [Hnone | [Hend Hlast]].
  - apply app_eq_elt in Heq as [(pre' & -> & Htr) | (e2 & Hev & _)].
    + exact (IH _ _ Htr Hx).
    + exfalso. rewrite Hev in Hnone. rewrite List.Forall_forall in Hnone.
      specialize (Hnone x (in_elt _ _ _)). congruence.
  - pose proof (ended_quiet sch _ Hend) as Hq.
    apply app_eq_elt in Heq as [(pre' & -> & Htr) | (e2 & Hev & ->)].
    + exfalso. rewrite Htr in Hq. rewrite List.Forall_forall in Hq.
      specialize (Hq x (in_elt _ _ _)). destruct x; discriminate.
    + exists pre, e2, (trace now sch (fst (step now a w))).
      rewrite <- Hev. auto.
Qed.

(** Reads an equation between an ending and [e1 ++ x :: e2]. *)
Ltac place_in_ending :=
  repeat match goal with
  | H : [] = ?e1 ++ _ :: _ |- _ => destruct e1; discriminate H
  | H : _ :: _ = ?e1 ++ _ :: _ |- _ =>
    destruct e1 as [| ? ?]; cbn in H; injection H as; subst
  end;
  try congruence.


(** X4. An exception raised by the driver ends the run: after it no
    driver call is entered any more. In particular a backup that fails is
    never followed by a write. *)
Theorem driver_exception_ends_run (sch : list action) (w : world)
    (pre post : list event) (s : stage) (o : outcome) :
  trace now sch w = pre ++ Raised s o :: post ->
  forall s' cmd, ~ In (Called s' cmd) post.
Proof.
  intros Heq s' cmd Hin.
  destruct (final_event_place sch w pre post _ Heq eq_refl)
    as (e1 & e2 & q & Hlast & -> & Hq).
  rewrite List.Forall_forall in Hq.
  assert (Hnq : ~ In (Called s' cmd) q).
  { intros H. specialize (Hq _ H). discriminate. }
  inversion Hlast as [H | H | s0 o0 Ho H | s0 H | H | H];
    place_in_ending; cbn in Hin; intuition discriminate.
Qed.

(** X5. When [run] is left by an exception it does not catch (an
    exception of the driver other than [FatalError] and
    [SerialException], or a key missing from its parameters), the worker
    emits neither [error] nor [done]: nothing but calls of the dialog
    follows in the trace. *)
Theorem uncaught_exception_is_silent (sch : list action) (w : world)
    (pre post : list event) (x : event) :
  (exists s, x = Raised s OtherException) \/ (exists e, x = Uncaught e) ->
  trace now sch w = pre ++ x :: post ->
  Forall (fun e => by_dialog e = true) post.
Proof.
  intros Hx Heq.
  assert (Hf : final x = true)
    by (destruct Hx as [[s ->] | [e ->]]; reflexivity).
  destruct (final_event_place sch w pre post _ Heq Hf)
    as (e1 & e2 & q & Hlast & -> & Hq).
  inversion Hlast as [H | H | s0 o0 Ho H | s0 H | H | H];
    place_in_ending;
    destruct Hx as [[s Hs] | [e He]]; try discriminate;
    try exact Hq.
  all: injection Hs as _ ->; destruct Ho; discriminate.
Qed.

Lemma exec_app (s1 s2 : list action) (w : world) :
  exec now (s1 ++ s2) w =
    (fst (exec now s2 (fst (exec now s1 w))),
     trace now s1 w ++ trace now s2 (fst (exec now s1 w))).
Proof.
  revert w. induction s1 as [| a s1 IH]; intros w.
  - unfold trace. cbn. destruct (exec now s2 w). reflexivity.
  - unfold trace in *. cbn. destruct (step now a w) as [w1 ev].
    rewrite IH. cbn. destruct (exec now s1 w1) as [w2 tr]. cbn.
    rewrite app_assoc. reflexivity.
Qed.

Lemma trace_app (s1 s2 : list action) (w : world) :
  trace now (s1 ++ s2) w =
    trace now s1 w ++ trace now s2 (fst (exec now s1 w)).
Proof. unfold trace at 1. rewrite exec_app. reflexivity. Qed.

Lemma exec_cons (a : action) (sch : list action) (w : world) :
  fst (exec now (a :: sch) w) = fst (exec now sch (fst (step now a w))).
Proof.
  cbn. destruct (step now a w) as [w1 ev]. cbn.
  destruct (exec now sch w1). reflexivity.
Qed.

(** While the prompt is up the worker's steps change nothing. *)
Lemma works_while_prompting (works : list action) (w : world) :
  prompting w -> Forall is_work works ->
  exec now works w = (w, []).
Proof.
  intros [Hp Hc] Hw. induction Hw as [| a works Ha _ IH]; [reflexivity |].
  destruct a as [o | |]; try contradiction.
  cbn. unfold worker_step. rewrite Hp, Hc. cbn. rewrite IH. reflexivity.
Qed.

(** A schedule up to the dialog's first call. *)
Lemma first_dialog_call (sch rest : list action) (a : action) :
  dialog_calls sch = a :: rest ->
  exists works sch', sch = works ++ a :: sch' /\ Forall is_work works /\
                     dialog_calls sch' = rest.
Proof.
  induction sch as [| b sch IH]; [discriminate |].
  destruct b as [o | |]; cbn; intros H.
  - destruct (IH H) as (works & sch' & -> & Hw & Hr).
    exists (Work o :: works), sch'. repeat split; auto.
    constructor; [exact I | exact Hw].
  - injection H as <- Hr. exists [], sch. repeat split; auto.
  - injection H as <- Hr. exists [], sch. repeat split; auto.
Qed.

Lemma no_dialog_call (sch : list action) :
  dialog_calls sch = [] -> Forall is_work sch.
Proof.
  induction sch as [| b sch IH]; [constructor |].
  destruct b as [o | |]; cbn; intros H; try discriminate.
  constructor; [exact I | exact (IH H)].
Qed.

Lemma step_leaving (a : action) (w : world) :
  leaving w ->
  leaving (fst (step now a w)) /\
  (occurrences is_done (snd (step now a w)) +
   pending (fst (step now a w)) = pending w)%nat.
Proof.
  unfold leaving, pending. intros [Hf [[Hp Hc] | [Hp | Hp]]];
    destruct a as [o | |]; cbn; unfold worker_step;
    rewrite ?Hp, ?Hc, ?Hf; cbn; rewrite ?Hp, ?Hf; cbn; tauto.
Qed.

Lemma exec_leaving (sch : list action) (w : world) :
  leaving w ->
  leaving (fst (exec now sch w)) /\
  (occurrences is_done (trace now sch w) +
   pending (fst (exec now sch w)) = pending w)%nat.
Proof.
  revert w. induction sch as [| a sch IH]; intros w Hw.
  - cbn. split; [exact Hw | reflexivity].
  - rewrite exec_cons, trace_cons, occurrences_app.
    destruct (step_leaving a w Hw) as [Hw' Hn].
    destruct (IH _ Hw') as [Hw'' Hn']. split; [exact Hw'' | lia].
Qed.

Lemma two_works_leave (o1 o2 : outcome) (w : world) :
  leaving w -> at_pc (fst (exec now [Work o1; Work o2] w)) = PcFinished.
Proof.
  unfold leaving. intros [Hf [[Hp Hc] | [Hp | Hp]]];
    cbn; unfold worker_step; rewrite ?Hp, ?Hc, ?Hf; cbn;
    rewrite ?Hp, ?Hf; cbn; rewrite ?Hf; reflexivity.
Qed.

(** X6. Cancel at the power-cycle prompt. The dialog then calls [abort],
    [continue_ok] and, through its own [abort], [abort] again; however
    these calls interleave with the polling worker, no driver call is
    entered, and two worker steps later [run] has ended with exactly one
    [done]: nothing is written to the device. *)
Theorem cancel_at_prompt_never_writes
    (w : world) (sch : list action) (o1 o2 : outcome) :
  prompting w ->
  dialog_calls sch = wait_for_user_calls Cancel ->
  let all := sch ++ [Work o1; Work o2] in
  (forall s cmd, ~ In (Called s cmd) (trace now all w)) /\
  at_pc (fst (exec now all w)) = PcFinished /\
  occurrences is_done (trace now all w) = 1%nat.
Proof.
  intros Hprompt Hcalls all. subst all.
  destruct (first_dialog_call _ _ _ Hcalls)
    as (works0 & sch1 & -> & Hw0 & Hcalls1).
  destruct (first_dialog_call _ _ _ Hcalls1)
    as (works1 & sch2 & -> & Hw1 & Hcalls2).
  pose proof (works_while_prompting works0 w Hprompt Hw0) as E0.
  assert (Hprompt' : prompting (abort w)) by exact Hprompt.
  pose proof (works_while_prompting works1 (abort w) Hprompt' Hw1) as E1.
  set (w2 := continue_ok (abort w)).
  assert (Hleave : leaving w2).
  { destruct Hprompt as [Hp Hc]. split; [reflexivity | left].
    split; [exact Hp | reflexivity]. }
  set (rest := sch2 ++ [Work o1; Work o2]).
  assert (Hexec : exec now ((works0 ++ CallAbort :: works1 ++
                              CallContinueOk :: sch2) ++ [Work o1; Work o2]) w
                  = (fst (exec now rest w2),
                     AbortCalled :: ContinueOkCalled :: trace now rest w2)).
  { rewrite <- app_assoc. rewrite exec_app. unfold trace. rewrite E0. cbn.
    rewrite <- app_assoc.
    change (exec now (works1 ++ (CallContinueOk :: sch2)
                        ++ [Work o1; Work o2]) (abort w))
      with (exec now (works1 ++ CallContinueOk :: rest) (abort w)).
    rewrite exec_app. unfold trace. rewrite E1. cbn.
    fold w2. destruct (exec now rest w2). reflexivity. }
  assert (Htr : trace now ((works0 ++ CallAbort :: works1 ++
                              CallContinueOk :: sch2) ++ [Work o1; Work o2]) w
                = AbortCalled :: ContinueOkCalled :: trace now rest w2).
  { unfold trace at 1. rewrite Hexec. reflexivity. }
  rewrite Htr, Hexec. cbn [fst snd].
  destruct (exec_leaving rest w2 Hleave) as [_ Hn].
  assert (Hfin : at_pc (fst (exec now rest w2)) = PcFinished).
  { subst rest. rewrite exec_app. cbn [fst].
    apply two_works_leave. apply exec_leaving. exact Hleave. }
  split; [| split; [exact Hfin |]].
  - intros s cmd [H | [H | H]]; try discriminate.
    pose proof (no_call_once_flag_cleared now rest w2 eq_refl) as Hall.
    destruct Hprompt as [Hp _].
    assert (Hpc : at_pc w2 <> PcStart) by (cbn; rewrite Hp; discriminate).
    specialize (Hall Hpc). rewrite List.Forall_forall in Hall.
    specialize (Hall _ H). discriminate.
  - unfold pending in Hn. rewrite Hfin in Hn.
    destruct Hprompt as [Hp _].
    change (at_pc w2) with (at_pc w) in Hn. rewrite Hp in Hn.
    unfold occurrences in *. cbn. cbn in Hn. lia.
Qed.

Lemma step_finds_parameters (a : action) (w : world) :
  has_its_parameters (self w) ->
  has_its_parameters (self (fst (step now a w))) /\
  Forall (fun e => is_uncaught e = false) (snd (step now a w)).
Proof.
  intros Hp. split.
  - unfold has_its_parameters in *.
    rewrite (proj1 (step_keeps_actions a w "backup")).
    rewrite (proj2 (step_keeps_actions a w "backup")). exact Hp.
  - destruct Hp as ([fp Hfp] & [ar Har] & Hbs).
    step_cases a w; repeat constructor; exfalso;
      try congruence;
      destruct (Hbs eq_refl) as [bs Hsome]; discriminate.
Qed.

Lemma run_finds_parameters (sch : list action) (w : world) :
  has_its_parameters (self w) ->
  Forall (fun e => is_uncaught e = false) (trace now sch w).
Proof.
  revert w. induction sch as [| a sch IH]; intros w Hw.
  - constructor.
  - rewrite trace_cons. destruct (step_finds_parameters a w Hw) as [Hw' Hev].
    apply Forall_app. split; [exact Hev | apply IH; exact Hw'].
Qed.

End Runs.

Lemma erase_needs_write_witness :
  let sch := [ESPWorker.Work ESPWorker.Returns;
              ESPWorker.Work ESPWorker.Returns;
              ESPWorker.Work ESPWorker.Returns] in
  let w := ESPWorker.start sample_backup_worker true in
  ESPWorker.has_action "write" (ESPWorker.self w) = false /\
  forall s cmd,
    In (ESPWorker.Called s cmd) (ESPWorker.trace sample_now sch w) ->
    s = ESPWorker.Backup.
Proof.
  intros sch w. split; [reflexivity |].
  exact (erase_needs_write sample_now sch w eq_refl).
Defined.

Lemma no_wait_witness :
  let sch := [ESPWorker.Work ESPWorker.Returns;
              ESPWorker.Work ESPWorker.Returns;
              ESPWorker.Work ESPWorker.Returns] in
  (ESPWorker.has_action "backup" sample_backup_worker = false \/
   exists auto_reset,
     ESPWorker._params sample_backup_worker !! "auto_reset" = Some auto_reset /\
     truthy auto_reset = true) /\
  ~ In ESPWorker.WaitingSignal
       (ESPWorker.trace sample_now sch
          (ESPWorker.start sample_backup_worker true)).
Proof.
  intros sch.
  assert (H : ESPWorker.has_action "backup" sample_backup_worker = false \/
              exists auto_reset,
                ESPWorker._params sample_backup_worker !! "auto_reset"
                  = Some auto_reset /\
                truthy auto_reset = true).
  { right. exists (VBool true). split; reflexivity. }
  split; [exact H |].
  exact (no_wait_without_backup_or_with_auto_reset sample_now sch
           sample_backup_worker true H).
Defined.


Lemma driver_exception_witness :
  let sch := [ESPWorker.Work ESPWorker.Returns;
              ESPWorker.Work ESPWorker.FatalError;
              ESPWorker.Work ESPWorker.Returns] in
  let tr := ESPWorker.trace sample_now sch
              (ESPWorker.start sample_worker true) in
  tr = firstn 1 tr ++ ESPWorker.Raised ESPWorker.Backup ESPWorker.FatalError
         :: skipn 2 tr /\
  forall s' cmd, ~ In (ESPWorker.Called s' cmd) (skipn 2 tr).
Proof.
  intros sch tr.
  assert (H : tr = firstn 1 tr
                ++ ESPWorker.Raised ESPWorker.Backup ESPWorker.FatalError
                :: skipn 2 tr) by reflexivity.
  split; [exact H |].
  exact (driver_exception_ends_run sample_now sch
           (ESPWorker.start sample_worker true) _ _ _ _ H).
Defined.

Lemma uncaught_exception_witness :
  let sch := [ESPWorker.Work ESPWorker.Returns;
              ESPWorker.Work ESPWorker.OtherException;
              ESPWorker.Work ESPWorker.Returns;
              ESPWorker.CallAbort] in
  let tr := ESPWorker.trace sample_now sch
              (ESPWorker.start sample_worker true) in
  let x := ESPWorker.Raised ESPWorker.Backup ESPWorker.OtherException in
  ((exists s, x = ESPWorker.Raised s ESPWorker.OtherException) \/
   (exists e, x = ESPWorker.Uncaught e)) /\
  tr = firstn 1 tr ++ x :: skipn 2 tr /\
  Forall (fun e => ESPWorker.by_dialog e = true) (skipn 2 tr).
Proof.
  intros sch tr x.
  assert (Hx : (exists s, x = ESPWorker.Raised s ESPWorker.OtherException) \/
               (exists e, x = ESPWorker.Uncaught e))
    by (left; exists ESPWorker.Backup; reflexivity).
  assert (H : tr = firstn 1 tr ++ x :: skipn 2 tr) by reflexivity.
  split; [exact Hx | split; [exact H |]].
  exact (uncaught_exception_is_silent sample_now sch
           (ESPWorker.start sample_worker true) _ _ x Hx H).
Defined.

Lemma cancel_at_prompt_witness :
  let sch := [ESPWorker.CallAbort; ESPWorker.Work ESPWorker.Returns;
              ESPWorker.CallContinueOk; ESPWorker.CallAbort] in
  let all := sch ++ [ESPWorker.Work ESPWorker.Returns;
                     ESPWorker.Work ESPWorker.Returns] in
  ESPRun.prompting sample_prompting /\
  ESPRun.dialog_calls sch = ESPRun.wait_for_user_calls ESPRun.Cancel /\
  (forall s cmd,
     ~ In (ESPWorker.Called s cmd)
          (ESPWorker.trace sample_now all sample_prompting)) /\
  ESPWorker.at_pc (fst (ESPWorker.exec sample_now all sample_prompting)) =
    ESPWorker.PcFinished /\
  ESPWorker.occurrences ESPRun.is_done
    (ESPWorker.trace sample_now all sample_prompting) = 1%nat.
Proof.
  intros sch all.
  assert (Hp : ESPRun.prompting sample_prompting) by (split; reflexivity).
  split; [exact Hp | split; [reflexivity |]].
  exact (cancel_at_prompt_never_writes sample_now sample_prompting sch
           ESPWorker.Returns ESPWorker.Returns Hp eq_refl).
Defined.

(** ** The dialog and the worker it makes *)

Section Session.

Import ProcessDialog Download.

Lemma has_action_in (name : string) (w : ESPWorker.t) :
  ESPWorker.has_action name w = true -> In name (ESPWorker._actions w).
Proof.
  unfold ESPWorker.has_action. rewrite existsb_exists.
  intros (x & Hin & Heq). apply String.eqb_eq in Heq. subst x. exact Hin.
Qed.

Lemma run_esp_parameters (d : t) :
  (In "backup" (_actions d) -> backup d = true /\ is_Some (backup_size d)) ->
  consistent (run_esp d).
Proof.
  intros Hb. split; [exact Hb |].
  intros w Hw. unfold run_esp in Hw. cbn in Hw. injection Hw as <-.
  unfold ESPRun.has_its_parameters. cbn -[ESPWorker.has_action].
  split; [| split].
  - destruct (backup d), (backup_size d);
      rewrite ?(lookup_insert_ne _ "backup_size") by discriminate;
      rewrite lookup_insert_ne by discriminate;
      rewrite lookup_insert_ne by discriminate;
      rewrite lookup_insert_eq; eexists; reflexivity.
  - destruct (backup d), (backup_size d);
      rewrite ?(lookup_insert_ne _ "backup_size") by discriminate;
      rewrite lookup_insert_ne by discriminate;
      rewrite lookup_insert_eq; eexists; reflexivity.
  - intros Ha. apply has_action_in in Ha. cbn in Ha.
    destruct (Hb Ha) as [-> [n ->]].
    rewrite lookup_insert_eq. eexists; reflexivity.
Qed.

Lemma init_consistent (p : value) (kw : kwargs) : consistent (init p kw).
Proof.
  unfold init.
  destruct (truthy (kw_file_path kw)), (startswith_http (kw_file_path kw)),
    (kw_backup kw) eqn:Eb, (kw_erase kw); cbn;
    unfold start_process; cbn;
    try (apply run_esp_parameters; cbn; rewrite ?Eb;
         intuition (try discriminate; eauto));
    (split; [cbn; intuition (try discriminate; eauto) | cbn; discriminate]).
Qed.

Lemma slot_consistent (e : net_event) (d : t) :
  consistent d -> consistent (fst (slot e d)).
Proof.
  intros Hd. destruct e as [chunk | recv total | [| code]]; cbn.
  - exact Hd.
  - unfold updateBinProgress, bind, gets. cbn.
    destruct (_action_widgets d !! "download"); [| exact Hd].
    destruct (progress_value recv total); exact Hd.
  - unfold saveBinFile, bind, gets, modify. cbn.
    destruct (file_path d) as [| b | url]; try exact Hd.
    destruct (open_wb (last_segment EmptyString url)) as [e | []]; cbn.
    + exact Hd.
    + apply run_esp_parameters. exact (proj1 Hd).
  - exact Hd.
Qed.

Lemma deliver_consistent (evs : list net_event) (d : t) :
  consistent d -> consistent (fst (deliver evs d)).
Proof.
  revert d. induction evs as [| e evs IH]; intros d Hd; [exact Hd |].
  cbn. unfold bind. pose proof (slot_consistent e d Hd) as Hs.
  destruct (slot e d) as [d1 [x | []]]; cbn in *; [exact Hs |].
  apply IH. exact Hs.
Qed.

(** X7. Whatever the keyword arguments and whatever the network reply
    delivers, a worker made by the dialog holds every parameter [run]
    reads: in no interleaving does [run] end on a missing key. *)
Theorem dialog_worker_finds_its_parameters
    (p : value) (kw : kwargs) (evs : list net_event) (w : ESPWorker.t)
    (now : string) (sch : list ESPWorker.action) (flag : bool) :
  esp (fst (deliver evs (init p kw))) = Some w ->
  forall e,
    ~ In (ESPWorker.Uncaught e) (ESPWorker.trace now sch (ESPWorker.start w flag)).
Proof.
  intros Hw e Hin.
  pose proof (deliver_consistent evs _ (init_consistent p kw)) as [_ Hc].
  pose proof (run_finds_parameters now sch (ESPWorker.start w flag) (Hc w Hw))
    as Hall.
  rewrite List.Forall_forall in Hall. specialize (Hall _ Hin). discriminate.
Qed.

(** The state [__init__] leaves when the image is to be downloaded. *)
Lemma init_url (p : value) (kw : kwargs) (url : string) :
  kw_file_path kw = VStr url -> startswith_http (VStr url) = true ->
  let d := init p kw in
  file_path d = VStr url /\ bin_data d = [] /\ esp d = None /\ files d = ∅ /\
  is_Some (_action_widgets d !! "download") /\
  existsb (String.eqb "download") (_actions d) = false /\
  existsb (String.eqb "write") (_actions d) = true.
Proof.
  intros Hfp Hh. unfold init. rewrite Hfp, Hh.
  assert (Ht : truthy (VStr url) = true).
  { destruct url as [| c url]; [discriminate | reflexivity]. }
  rewrite Ht.
  destruct (kw_backup kw), (kw_erase kw); cbn;
    repeat split; try reflexivity; eexists; reflexivity.
Qed.

Lemma deliver_handled (evs : list net_event) (d : t) :
  Forall handled evs -> is_Some (_action_widgets d !! "download") ->
  exists m, is_Some (m !! "download") /\
    deliver evs d =
      (set_widgets m (set_bin_data (bin_data d ++ received evs) d), inr tt).
Proof.
  intros H. revert d. induction H as [| e evs He _ IH]; intros d Hbar.
  - exists (_action_widgets d). split; [exact Hbar |].
    cbn. rewrite app_nil_r. destruct d; reflexivity.
  - destruct e as [chunk | recv total | err]; cbn in He; [| | contradiction].
    + cbn. unfold bind, appendBinFile, modify.
      destruct (IH (set_bin_data (bin_data d ++ chunk) d) Hbar)
        as (m & Hm & ->).
      exists m. split; [exact Hm |]. cbn. rewrite <- app_assoc. reflexivity.
    + cbn. unfold bind at 1. unfold updateBinProgress, bind, gets, modify.
      destruct Hbar as [old Hold]. rewrite Hold. unfold progress_value.
      destruct (Z.eqb_spec total 0) as [| _]; [contradiction |].
      destruct (IH (set_widgets (<["download" := recv / total * 100]>
                                   (_action_widgets d)) d))
        as (m & Hm & ->).
      { cbn. rewrite lookup_insert_eq. eexists; reflexivity. }
      exists m. split; [exact Hm | reflexivity].
Qed.

(** X8. A download that ends without error, from a URL whose last
    segment [open] accepts as a file name: every chunk the reply
    delivered is in the file of that name, in order, and the worker is
    made to write that file; 'download' is no longer among its
    actions. *)
Theorem downloaded_image_is_flashed
    (p : value) (kw : kwargs) (url : string) (evs : list net_event) :
  kw_file_path kw = VStr url -> startswith_http (VStr url) = true ->
  open_wb (last_segment EmptyString url) = inr tt ->
  Forall handled evs ->
  let name := last_segment EmptyString url in
  let r := deliver (evs ++ [Finished NoError]) (init p kw) in
  raised r = None /\
  files (fst r) !! name = Some (received evs) /\
  exists w, esp (fst r) = Some w /\
    ESPWorker._params w !! "file_path" = Some (VStr name) /\
    ESPWorker.has_action "download" w = false /\
    ESPWorker.has_action "write" w = true.
Proof.
  intros Hfp Hh Hopen Hevs name r. subst r.
  destruct (init_url p kw url Hfp Hh)
    as (Hpath & Hdata & _ & _ & Hbar & Hnd & Hwr).
  destruct (deliver_handled evs (init p kw) Hevs Hbar) as (m & _ & Hd).
  rewrite deliver_app, Hd. cbn.
  unfold bind, saveBinFile, gets, modify. cbn. rewrite Hpath. cbn.
  rewrite Hopen. unfold bind, modify, raised. cbn.
  split; [reflexivity | split].
  - rewrite lookup_insert_eq, Hdata. reflexivity.
  - eexists. split; [reflexivity |]. cbn. split; [| split].
    + destruct (backup (init p kw)), (backup_size (init p kw));
        rewrite ?(lookup_insert_ne _ "backup_size") by discriminate;
        rewrite lookup_insert_ne by discriminate;
        rewrite lookup_insert_ne by discriminate;
        apply lookup_insert_eq.
    + exact Hnd.
    + exact Hwr.
Qed.

(** X9. A progress notification whose total is 0 raises
    [ZeroDivisionError] in [updateBinProgress]; the download bar keeps
    its value, nothing that arrives afterwards is handled, and no worker
    is made: the image is not flashed. *)
Theorem zero_total_stops_download
    (p : value) (kw : kwargs) (url : string)
    (evs rest : list net_event) (recv : Z) :
  kw_file_path kw = VStr url -> startswith_http (VStr url) = true ->
  Forall handled evs ->
  let before := deliver evs (init p kw) in
  let r := deliver (evs ++ DownloadProgress recv 0 :: rest) (init p kw) in
  raised r = Some ZeroDivisionError /\
  fst r = fst before /\
  esp (fst r) = None.
Proof.
  intros Hfp Hh Hevs before r. subst before r.
  destruct (init_url p kw url Hfp Hh)
    as (_ & _ & Hesp & _ & Hbar & _ & _).
  destruct (deliver_handled evs (init p kw) Hevs Hbar) as (m & [v Hm] & Hd).
  rewrite deliver_app, Hd. cbn.
  unfold bind, updateBinProgress, gets. cbn. rewrite Hm. cbn.
  unfold raised. cbn. repeat split. exact Hesp.
Qed.

End Session.

Lemma dialog_worker_witness :
  let sch := [ESPWorker.Work ESPWorker.Returns;
              ESPWorker.Work ESPWorker.Returns;
              ESPWorker.Work ESPWorker.Returns] in
  ProcessDialog.esp
    (fst (ProcessDialog.deliver []
            (ProcessDialog.init sample_port sample_file_kwargs))) =
    Some sample_worker /\
  forall e,
    ~ In (ESPWorker.Uncaught e)
         (ESPWorker.trace sample_now sch (ESPWorker.start sample_worker true)).
Proof.
  intros sch. split; [reflexivity |].
  exact (dialog_worker_finds_its_parameters sample_port sample_file_kwargs []
           sample_worker sample_now sch true eq_refl).
Defined.

Lemma downloaded_image_witness :
  let name := ProcessDialog.last_segment EmptyString sample_url in
  let r := ProcessDialog.deliver
             (sample_download ++ [ProcessDialog.Finished ProcessDialog.NoError])
             (ProcessDialog.init sample_port sample_url_kwargs) in
  ProcessDialog.kw_file_path sample_url_kwargs = VStr sample_url /\
  ProcessDialog.startswith_http (VStr sample_url) = true /\
  ProcessDialog.open_wb name = inr tt /\
  Forall Download.handled sample_download /\
  raised r = None /\
  ProcessDialog.files (fst r) !! name = Some (Download.received sample_download) /\
  exists w, ProcessDialog.esp (fst r) = Some w /\
    ESPWorker._params w !! "file_path" = Some (VStr name) /\
    ESPWorker.has_action "download" w = false /\
    ESPWorker.has_action "write" w = true.
Proof.
  intros name r.
  assert (Hname : ProcessDialog.open_wb name = inr tt) by reflexivity.
  assert (Hevs : Forall Download.handled sample_download).
  { repeat (apply List.Forall_cons; [cbn; try exact I; discriminate |]).
    apply List.Forall_nil. }
  split; [reflexivity | split; [reflexivity |]].
  split; [exact Hname | split; [exact Hevs |]].
  exact (downloaded_image_is_flashed sample_port sample_url_kwargs sample_url
           sample_download eq_refl eq_refl Hname Hevs).
Defined.

Lemma zero_total_witness :
  let rest := [ProcessDialog.Finished ProcessDialog.NoError] in
  let before := ProcessDialog.deliver sample_download
                  (ProcessDialog.init sample_port sample_url_kwargs) in
  let r := ProcessDialog.deliver
             (sample_download ++ ProcessDialog.DownloadProgress 0 0 :: rest)
             (ProcessDialog.init sample_port sample_url_kwargs) in
  ProcessDialog.kw_file_path sample_url_kwargs = VStr sample_url /\
  ProcessDialog.startswith_http (VStr sample_url) = true /\
  Forall Download.handled sample_download /\
  raised r = Some ZeroDivisionError /\
  fst r = fst before /\
  ProcessDialog.esp (fst r) = None.
Proof.
  intros rest before r.
  assert (Hevs : Forall Download.handled sample_download).
  { repeat (apply List.Forall_cons; [cbn; try exact I; discriminate |]).
    apply List.Forall_nil. }
  split; [reflexivity | split; [reflexivity | split; [exact Hevs |]]].
  exact (zero_total_stops_download sample_port sample_url_kwargs sample_url
           sample_download rest 0 eq_refl eq_refl Hevs).
Defined.

(** ** The address dialog *)

Section Address.

Import DeviceIP.

Lemma digit_run_spec (s : string) :
  s = fst (digit_run s) +:+ snd (digit_run s) /\
  (forall c, occurs c (fst (digit_run s)) = true -> is_digit c = true).
Proof.
  induction s as [| x s [IH1 IH2]]; cbn [digit_run].
  - split; [reflexivity | discriminate].
  - destruct (is_digit x) eqn:E; cbn [fst snd].
    + split; [rewrite append_cons, <- IH1; reflexivity |].
      intros c. cbn [occurs]. intros H. apply orb_true_iff in H as [H | H].
      * apply Ascii.eqb_eq in H. subst c. exact E.
      * apply IH2. exact H.
    + split; [reflexivity | discriminate].
Qed.

Lemma digit_run_app (s s' : string) (c : ascii) (r : string) :
  snd (digit_run s) = String c r ->
  digit_run (s +:+ s') = (fst (digit_run s), String c r +:+ s').
Proof.
  induction s as [| x s IH]; cbn [digit_run]; [discriminate |].
  rewrite append_cons. cbn [digit_run].
  destruct (is_digit x); cbn [fst snd].
  - intros H. rewrite (IH H). reflexivity.
  - intros H. injection H as -> ->. reflexivity.
Qed.

Lemma octet_spec (stop : ascii) (s ds r : string) :
  octet stop s = Some (ds, r) ->
  s = ds +:+ String stop r /\ octet_text ds.
Proof.
  unfold octet. destruct (digit_run_spec s) as [Hs Hd].
  destruct (digit_run s) as [ds0 rest]. cbn [fst snd] in *.
  destruct ((1 <=? String.length ds0)%nat && (String.length ds0 <=? 3)%nat)
    eqn:Elen; [| discriminate].
  destruct rest as [| c r0]; [discriminate |].
  destruct (Ascii.eqb c stop) eqn:Ec; [| discriminate].
  intros H. injection H as <- <-. apply Ascii.eqb_eq in Ec. subst c.
  split; [exact Hs | split; [| exact Hd]].
  apply andb_true_iff in Elen as [H1 H2].
  apply Nat.leb_le in H1, H2. lia.
Qed.

Lemma octet_app (stop : ascii) (s s' ds r : string) :
  octet stop s = Some (ds, r) ->
  octet stop (s +:+ s') = Some (ds, r +:+ s').
Proof.
  unfold octet. destruct (digit_run s) as [ds0 rest] eqn:E.
  destruct ((1 <=? String.length ds0)%nat && (String.length ds0 <=? 3)%nat)
    eqn:Elen; [| discriminate].
  destruct rest as [| c r0]; [discriminate |].
  destruct (Ascii.eqb c stop) eqn:Ec; [| discriminate].
  intros H. injection H as <- <-.
  assert (Hrun : snd (digit_run s) = String c r0) by (rewrite E; reflexivity).
  rewrite (digit_run_app s s' c r0 Hrun), E. cbn [fst]. rewrite Elen.
  rewrite append_cons, Ec. reflexivity.
Qed.

Lemma not_digit_paren : is_digit "(" = false.
Proof. reflexivity. Qed.

(** A group fails for good on a text that holds a parenthesis: it did
    not run out of text. *)
Lemma octet_app_none (stop : ascii) (s s' : string) :
  octet stop s = None -> occurs "(" s = true ->
  octet stop (s +:+ s') = None.
Proof.
  unfold octet. intros Hnone Hparen.
  destruct (digit_run_spec s) as [Hs Hd].
  destruct (digit_run s) as [ds0 rest] eqn:E. cbn [fst snd] in *.
  destruct rest as [| c r0].
  - exfalso. rewrite append_nil_r in Hs. subst ds0.
    specialize (Hd _ Hparen). discriminate.
  - assert (Hrun : snd (digit_run s) = String c r0)
      by (rewrite E; reflexivity).
    rewrite (digit_run_app s s' c r0 Hrun), E. cbn [fst].
    destruct ((1 <=? String.length ds0)%nat && (String.length ds0 <=? 3)%nat);
      [| reflexivity].
    rewrite append_cons. destruct (Ascii.eqb c stop); [discriminate |].
    reflexivity.
Qed.

Lemma octet_paren (s ds r : string) :
  octet "." s = Some (ds, r) -> occurs "(" s = true -> occurs "(" r = true.
Proof.
  intros H Hp. destruct (octet_spec _ _ _ _ H) as [-> [_ Hd]].
  rewrite occurs_app in Hp. apply orb_true_iff in Hp as [Hp | Hp].
  - specialize (Hd _ Hp). discriminate.
  - cbn [occurs] in Hp. apply orb_true_iff in Hp as [Hp | Hp];
      [discriminate | exact Hp].
Qed.

Lemma quad_app (s s' g : string) :
  quad s = Some g -> quad (s +:+ s') = Some g.
Proof.
  unfold quad.
  destruct (octet "." s) as [[a r1] |] eqn:E1; [| discriminate].
  destruct (octet "." r1) as [[b r2] |] eqn:E2; [| discriminate].
  destruct (octet "." r2) as [[c r3] |] eqn:E3; [| discriminate].
  destruct (octet ")" r3) as [[d r4] |] eqn:E4; [| discriminate].
  intros H.
  rewrite (octet_app _ _ s' _ _ E1), (octet_app _ _ s' _ _ E2),
          (octet_app _ _ s' _ _ E3), (octet_app _ _ s' _ _ E4).
  exact H.
Qed.

Lemma quad_app_none (s s' : string) :
  quad s = None -> occurs "(" s = true -> quad (s +:+ s') = None.
Proof.
  unfold quad. intros Hnone Hp.
  destruct (octet "." s) as [[a r1] |] eqn:E1;
    [| rewrite (octet_app_none _ _ s' E1 Hp); reflexivity].
  rewrite (octet_app _ _ s' _ _ E1).
  pose proof (octet_paren _ _ _ E1 Hp) as Hp1.
  destruct (octet "." r1) as [[b r2] |] eqn:E2;
    [| rewrite (octet_app_none _ _ s' E2 Hp1); reflexivity].
  rewrite (octet_app _ _ s' _ _ E2).
  pose proof (octet_paren _ _ _ E2 Hp1) as Hp2.
  destruct (octet "." r2) as [[c r3] |] eqn:E3;
    [| rewrite (octet_app_none _ _ s' E3 Hp2); reflexivity].
  rewrite (octet_app _ _ s' _ _ E3).
  pose proof (octet_paren _ _ _ E3 Hp2) as Hp3.
  destruct (octet ")" r3) as [[d r4] |] eqn:E4; [discriminate |].
  rewrite (octet_app_none _ _ s' E4 Hp3). reflexivity.
Qed.

Lemma search_paren (s g : string) :
  re_ip_search s = Some g -> occurs "(" s = true.
Proof.
  induction s as [| x s IH]; cbn [re_ip_search occurs]; [discriminate |].
  destruct (Ascii.eqb x "("); [reflexivity |]. exact IH.
Qed.

(** The leftmost match of a text is the leftmost match of every
    extension of it. *)
Lemma search_app (s s' g : string) :
  re_ip_search s = Some g -> re_ip_search (s +:+ s') = Some g.
Proof.
  induction s as [| x s IH]; [discriminate |].
  rewrite append_cons. cbn [re_ip_search].
  destruct (Ascii.eqb x "("); [| exact IH].
  destruct (quad s) as [g' |] eqn:E.
  - intros H. rewrite (quad_app _ s' _ E). exact H.
  - intros H. rewrite (quad_app_none _ s' E (search_paren _ _ H)).
    apply IH. exact H.
Qed.

Lemma quad_spec (s g : string) :
  quad s = Some g ->
  dotted_quad g /\ exists post, s = g +:+ String ")" post.
Proof.
  unfold quad.
  destruct (octet "." s) as [[a r1] |] eqn:E1; [| discriminate].
  destruct (octet "." r1) as [[b r2] |] eqn:E2; [| discriminate].
  destruct (octet "." r2) as [[c r3] |] eqn:E3; [| discriminate].
  destruct (octet ")" r3) as [[d r4] |] eqn:E4; [| discriminate].
  intros H. injection H as <-.
  destruct (octet_spec _ _ _ _ E1) as [-> Ha].
  destruct (octet_spec _ _ _ _ E2) as [-> Hb].
  destruct (octet_spec _ _ _ _ E3) as [-> Hc].
  destruct (octet_spec _ _ _ _ E4) as [-> Hd].
  split.
  - exists a, b, c, d. repeat split; try apply Ha; try apply Hb;
      try apply Hc; try apply Hd.
  - exists r4. unfold dot. rewrite !append_assoc, !append_cons, !append_nil_l.
    reflexivity.
Qed.

Lemma search_spec (s g : string) :
  re_ip_search s = Some g ->
  dotted_quad g /\
  exists pre post, s = pre +:+ String "(" (g +:+ String ")" post).
Proof.
  induction s as [| x s IH]; cbn [re_ip_search]; [discriminate |].
  assert (Hlater : re_ip_search s = Some g ->
            dotted_quad g /\
            exists pre post,
              String x s = pre +:+ String "(" (g +:+ String ")" post)).
  { intros H. destruct (IH H) as (Hq & pre & post & ->).
    split; [exact Hq |]. exists (String x pre), post. reflexivity. }
  destruct (Ascii.eqb x "(") eqn:Ex; [| exact Hlater].
  destruct (quad s) as [g' |] eqn:E; [| exact Hlater].
  intros H. injection H as ->. apply Ascii.eqb_eq in Ex. subst x.
  destruct (quad_spec _ _ E) as (Hq & post & ->).
  split; [exact Hq |]. exists EmptyString, post. reflexivity.
Qed.

Lemma reads_snoc (chunks : list (list byte)) (last : list byte) (d : t) :
  reads (chunks ++ [last]) d = read last (reads chunks d).
Proof. unfold reads. rewrite fold_left_app. reflexivity. Qed.

Lemma read_data (chunk : list byte) (d : t) :
  data (read chunk d) = data d ++ chunk /\
  written (read chunk d) = written d.
Proof.
  unfold read. destruct (decode_utf8 (data d ++ chunk)) as [text |];
    [destruct (re_ip_search text) |]; split; reflexivity.
Qed.

Lemma reads_data (chunks : list (list byte)) (d : t) :
  data (reads chunks d) = data d ++ concat chunks /\
  written (reads chunks d) = written d.
Proof.
  revert d. induction chunks as [| chunk chunks IH]; intros d.
  - cbn. rewrite app_nil_r. split; reflexivity.
  - change (reads (chunk :: chunks) d) with (reads chunks (read chunk d)).
    destruct (IH (read chunk d)) as [-> ->].
    destruct (read_data chunk d) as [-> ->].
    cbn [concat]. rewrite app_assoc. split; reflexivity.
Qed.

Lemma decode_utf8_text (buf : list byte) (text : string) :
  decode_utf8 buf = Some text -> text = string_of_list_byte buf.
Proof.
  unfold decode_utf8. destruct (utf8_valid buf); congruence.
Qed.

(** The field shows the placeholder or what the search finds in the
    received bytes. *)
Lemma read_shown (chunk : list byte) (d : t) (shown : string) :
  (ip d = shown \/
   re_ip_search (string_of_list_byte (data d)) = Some (ip d)) ->
  ip (read chunk d) = shown \/
  re_ip_search (string_of_list_byte (data (read chunk d))) =
    Some (ip (read chunk d)).
Proof.
  intros Hd.
  assert (Hkeep : ip d = shown \/
            re_ip_search (string_of_list_byte (data d ++ chunk)) =
              Some (ip d)).
  { destruct Hd as [H | H]; [left; exact H | right].
    rewrite string_of_list_byte_app. apply search_app. exact H. }
  unfold read.
  destruct (decode_utf8 (data d ++ chunk)) as [text |] eqn:E;
    [| exact Hkeep].
  destruct (re_ip_search text) as [g |] eqn:Es; [| exact Hkeep].
  right. cbn [data ip]. apply decode_utf8_text in E. subst text. exact Es.
Qed.

Lemma reads_shown (chunks : list (list byte)) (d : t) (shown : string) :
  (ip d = shown \/
   re_ip_search (string_of_list_byte (data d)) = Some (ip d)) ->
  ip (reads chunks d) = shown \/
  re_ip_search (string_of_list_byte (data (reads chunks d))) =
    Some (ip (reads chunks d)).
Proof.
  revert d. induction chunks as [| chunk chunks IH]; intros d Hd;
    [exact Hd |].
  change (reads (chunk :: chunks) d) with (reads chunks (read chunk d)).
  apply IH. apply read_shown. exact Hd.
Qed.

(** X13. The first address found stays: once the received bytes hold a
    match and the field shows it, nothing that arrives later changes the
    field, whether it decodes or not and whatever addresses it holds. *)
Theorem first_address_stays (chunks : list (list byte)) (d : t) (g : string) :
  re_ip_search (string_of_list_byte (data d)) = Some g -> ip d = g ->
  ip (reads chunks d) = g.
Proof.
  revert d. induction chunks as [| chunk chunks IH]; intros d Hs Hip;
    [exact Hip |].
  change (reads (chunk :: chunks) d) with (reads chunks (read chunk d)).
  assert (Hs' : re_ip_search (string_of_list_byte (data d ++ chunk)) = Some g).
  { rewrite string_of_list_byte_app. apply search_app. exact Hs. }
  apply IH.
  - rewrite (proj1 (read_data chunk d)). exact Hs'.
  - unfold read.
    destruct (decode_utf8 (data d ++ chunk)) as [text |] eqn:E;
      [| exact Hip].
    apply decode_utf8_text in E. subst text. rewrite Hs'. reflexivity.
Qed.

(** X14. How the serial port cuts the answer into chunks does not
    matter: when the bytes received are valid UTF-8 as a whole, the
    dialog ends in the state it reaches when they arrive as one chunk,
    even if single chunks split a character or the address. *)
Theorem address_is_independent_of_chunks (chunks : list (list byte)) :
  utf8_valid (concat chunks) = true ->
  reads chunks init = read (concat chunks) init.
Proof.
  intros Hvalid.
  induction chunks as [| last cs _] using rev_ind; [reflexivity |].
  rewrite reads_snoc.
  destruct (reads_data cs init) as [Hdata Hwritten].
  pose proof (reads_shown cs init placeholder (or_introl eq_refl)) as Hshown.
  rewrite concat_app in *. cbn [concat] in *. rewrite app_nil_r in *.
  unfold read. rewrite Hdata, Hwritten. cbn [data init app].
  unfold decode_utf8. rewrite Hvalid.
  destruct (re_ip_search (string_of_list_byte (concat cs ++ last)))
    as [g |] eqn:Es; [reflexivity |].
  destruct Hshown as [-> | Hfound]; [reflexivity |].
  rewrite Hdata in Hfound. cbn [data init app] in Hfound.
  rewrite string_of_list_byte_app in Es.
  rewrite (search_app _ (string_of_list_byte last) _ Hfound) in Es.
  discriminate.
Qed.

(** X15. Whatever arrives, the field shows its placeholder or an address
    that was received: four groups of one to three digits joined by
    dots, standing between parentheses in the bytes received. *)
Theorem shown_address_was_received (chunks : list (list byte)) :
  let d := reads chunks init in
  ip d = placeholder \/
  (dotted_quad (ip d) /\
   exists pre post,
     string_of_list_byte (concat chunks) =
       pre +:+ String "(" (ip d +:+ String ")" post)).
Proof.
  intros d. subst d.
  destruct (reads_shown chunks init placeholder (or_introl eq_refl))
    as [H | H]; [left; exact H | right].
  rewrite (proj1 (reads_data chunks init)) in H. cbn [data init app] in H.
  exact (search_spec _ _ H).
Qed.

End Address.

Lemma first_address_witness :
  let d := DeviceIP.read sample_address DeviceIP.init in
  let g := "10.0.0.7" in
  DeviceIP.re_ip_search (string_of_list_byte (DeviceIP.data d)) = Some g /\
  DeviceIP.ip d = g /\
  DeviceIP.ip (DeviceIP.reads [sample_later_address; [xff]] d) = g.
Proof.
  intros d g.
  assert (Hs : DeviceIP.re_ip_search (string_of_list_byte (DeviceIP.data d))
               = Some g) by reflexivity.
  assert (Hip : DeviceIP.ip d = g) by reflexivity.
  split; [exact Hs | split; [exact Hip |]].
  exact (first_address_stays [sample_later_address; [xff]] d g Hs Hip).
Defined.

Lemma address_chunks_witness :
  let chunks := [firstn 4 sample_address; skipn 4 sample_address] in
  utf8_valid (concat chunks) = true /\
  DeviceIP.reads chunks DeviceIP.init =
    DeviceIP.read (concat chunks) DeviceIP.init.
Proof.
  intros chunks.
  assert (H : utf8_valid (concat chunks) = true) by reflexivity.
  split; [exact H |].
  exact (address_is_independent_of_chunks chunks H).
Defined.

(** ** The configuration form and the main window *)

Section Forms.

Import SendConfigDialog Tasmotizer.

Lemma accepted_commands (f : SendConfigDialog.t) (ws : list warning)
    (commands : string) :
  accept f = (ws, Some commands) ->
  warnings f = [] /\
  commands = "backlog " +:+ join ";" (backlog f) +:+ String LF EmptyString.
Proof.
  unfold accept. destruct (warnings f); intros H; [| discriminate].
  injection H as _ <-. split; reflexivity.
Qed.

(** X16. Whatever the form holds, [send_config] never reports that
    there is nothing to send: an accepted form always gives the command
    [backlog], and a form with every group unticked is written to the
    device as the bare line [backlog ]. *)
Theorem empty_form_is_sent (f : SendConfigDialog.t) (port_ok : bool) :
  send_config f port_ok <> NothingToSend /\
  (gbWifi f = false -> gbRecWifi f = false -> gbMQTT f = false ->
   gbModule f = false -> warnings f = [] ->
   send_config f true = Written ("backlog " +:+ String LF EmptyString)).
Proof.
  split.
  - unfold send_config.
    destruct (accept f) as [ws [commands |]] eqn:E; [| discriminate].
    destruct (accepted_commands f ws commands E) as [_ ->].
    change (nonempty ("backlog " +:+ join ";" (backlog f)
                      +:+ String LF EmptyString)) with true.
    destruct port_ok; discriminate.
  - intros H1 H2 H3 H4 Hw. unfold send_config, accept. rewrite Hw.
    unfold backlog. rewrite H1, H2, H3, H4. reflexivity.
Qed.

(** X17. A password for the broker is passed on only together with a
    user name: with the user field empty, [accept] shows the same
    warnings and builds the same line whatever the password field
    holds, and so the same bytes are sent. *)
Theorem mqtt_password_needs_user (f : SendConfigDialog.t) (p : string)
    (port_ok : bool) :
  leMQTTUser f = EmptyString ->
  accept (with_password p f) = accept f /\
  send_config (with_password p f) port_ok = send_config f port_ok.
Proof.
  intros Hu.
  assert (Hb : backlog (with_password p f) = backlog f).
  { unfold backlog. cbn [with_password gbWifi leAP leAPPwd gbRecWifi gbMQTT
                         leBroker sbPort leTopic leFullTopic leFriendlyName
                         leMQTTUser leMQTTPass gbModule module_mode cbModule
                         leTemplate].
    rewrite Hu. change (nonempty EmptyString) with false. reflexivity. }
  assert (Ha : accept (with_password p f) = accept f).
  { unfold accept. rewrite Hb. reflexivity. }
  split; [exact Ha |]. unfold send_config. rewrite Ha. reflexivity.
Qed.

Lemma init_local_file (p : value) (kw : ProcessDialog.kwargs) :
  ProcessDialog.startswith_http (ProcessDialog.kw_file_path kw) = false ->
  exists wk,
    ProcessDialog.esp (ProcessDialog.init p kw) = Some wk /\
    ESPWorker.has_action "write" wk = truthy (ProcessDialog.kw_file_path kw) /\
    ESPWorker.has_action "backup" wk = ProcessDialog.kw_backup kw /\
    ESPWorker._params wk !! "file_path" = Some (ProcessDialog.kw_file_path kw).
Proof.
  intros Hh. unfold ProcessDialog.init. rewrite Hh, andb_false_r.
  destruct (ProcessDialog.kw_backup kw), (ProcessDialog.kw_erase kw),
    (truthy (ProcessDialog.kw_file_path kw));
    (eexists; split; [reflexivity |]; repeat split; try reflexivity;
     cbn; rewrite ?(lookup_insert_ne _ "backup_size") by discriminate;
     rewrite lookup_insert_ne by discriminate;
     rewrite lookup_insert_ne by discriminate;
     apply lookup_insert_eq).
Qed.

(** X18. From the file box, flashing never starts without an image: in
    file mode [start_process] either complains that the path is missing
    or opens a session on the text of the box, which downloads it when
    it starts with [http] and otherwise makes a worker that writes that
    file. *)
Theorem file_mode_always_writes (w : Tasmotizer.t) :
  mode w = 0 ->
  (file w = EmptyString /\ start_process w = ImagePathMissing) \/
  (exists d, start_process w = Dialog (VStr (file w)) d /\
     ((ProcessDialog.startswith_http (VStr (file w)) = true /\
       ProcessDialog.esp d = None /\
       ProcessDialog.bin_request d = Some (VStr (file w))) \/
      (exists wk, ProcessDialog.esp d = Some wk /\
         ESPWorker.has_action "write" wk = true /\
         ESPWorker._params wk !! "file_path" = Some (VStr (file w))))).
Proof.
  intros Hm. unfold start_process. rewrite Hm. cbn [Z.eqb].
  unfold nonempty. destruct (String.eqb_spec (file w) EmptyString) as [E | E];
    cbn [negb]; [left; split; [exact E | reflexivity] | right].
  eexists. split; [reflexivity |].
  set (kw := {| ProcessDialog.kw_file_path := VStr (file w);
                ProcessDialog.kw_backup := cbBackup w;
                ProcessDialog.kw_backup_size := cbxBackupSize w;
                ProcessDialog.kw_erase := cbErase w;
                ProcessDialog.kw_auto_reset := cbSelfReset w |}).
  assert (Ht : truthy (VStr (file w)) = true).
  { cbn. destruct (String.eqb_spec (file w) EmptyString); [contradiction |].
    reflexivity. }
  destruct (ProcessDialog.startswith_http (VStr (file w))) eqn:Eh.
  - left. destruct (init_download (cbxPort w) kw Ht Eh) as [He Hr].
    split; [reflexivity | split; [exact He | exact Hr]].
  - right. destruct (init_local_file (cbxPort w) kw Eh)
      as (wk & Hwk & Hwrite & _ & Hpath).
    exists wk. split; [exact Hwk | split; [| exact Hpath]].
    rewrite Hwrite. exact Ht.
Qed.

(** X19. With the release or development list selected and no image in
    the box, and no backup asked for, the session still runs: its
    worker calls the driver for nothing and emits [done] at its second
    step, which the dialog takes for success, whether or not the erase
    box is ticked. *)
Theorem empty_image_box_runs_nothing (w : Tasmotizer.t) :
  mode w = 1 \/ mode w = 2 -> cbHackboxBin w = VNone -> cbBackup w = false ->
  exists d wk,
    start_process w = Dialog VNone d /\ ProcessDialog.esp d = Some wk /\
    forall now flag o1 o2,
      ESPWorker.trace now [ESPWorker.Work o1; ESPWorker.Work o2]
                      (ESPWorker.start wk flag) = [ESPWorker.DoneSignal].
Proof.
  intros Hm Hbox Hb. unfold start_process.
  assert (Hmode : ((mode w =? 0)%Z = false) /\
                  ((mode w =? 1)%Z || (mode w =? 2)%Z = true)).
  { destruct Hm as [-> | ->]; split; reflexivity. }
  destruct Hmode as [-> ->]. rewrite Hbox, Hb.
  set (kw := {| ProcessDialog.kw_file_path := VNone;
                ProcessDialog.kw_backup := false;
                ProcessDialog.kw_backup_size := cbxBackupSize w;
                ProcessDialog.kw_erase := cbErase w;
                ProcessDialog.kw_auto_reset := cbSelfReset w |}).
  destruct (init_local_file (cbxPort w) kw eq_refl)
    as (wk & Hwk & Hwrite & Hbackup & _).
  exists (ProcessDialog.init (cbxPort w) kw), wk.
  split; [reflexivity | split; [exact Hwk |]].
  intros now flag o1 o2. unfold ESPWorker.trace. cbn -[ESPWorker.has_action].
  unfold ESPWorker.worker_step. cbn -[ESPWorker.has_action].
  rewrite Hbackup. cbn -[ESPWorker.has_action]. rewrite Hwrite.
  cbn. rewrite ?andb_false_r. reflexivity.
Qed.

End Forms.

Lemma empty_form_witness :
  let f := sample_empty_form in
  SendConfigDialog.gbWifi f = false /\ SendConfigDialog.gbRecWifi f = false /\
  SendConfigDialog.gbMQTT f = false /\ SendConfigDialog.gbModule f = false /\
  SendConfigDialog.warnings f = [] /\
  Tasmotizer.send_config f true <> Tasmotizer.NothingToSend /\
  Tasmotizer.send_config f true =
    Tasmotizer.Written ("backlog " +:+ String LF EmptyString).
Proof.
  intros f.
  destruct (empty_form_is_sent f true) as [Hnever Hbare].
  do 5 (split; [reflexivity |]).
  split; [exact Hnever |].
  exact (Hbare eq_refl eq_refl eq_refl eq_refl eq_refl).
Defined.

Lemma mqtt_password_witness :
  SendConfigDialog.leMQTTUser sample_form = EmptyString /\
  SendConfigDialog.leMQTTPass sample_form = "hidden" /\
  SendConfigDialog.accept (SendConfigDialog.with_password "other" sample_form)
    = SendConfigDialog.accept sample_form /\
  Tasmotizer.send_config
    (SendConfigDialog.with_password "other" sample_form) true =
    Tasmotizer.send_config sample_form true.
Proof.
  split; [reflexivity | split; [reflexivity |]].
  exact (mqtt_password_needs_user sample_form "other" true eq_refl).
Defined.

Lemma file_mode_witness :
  Tasmotizer.mode sample_window = 0 /\
  ((Tasmotizer.file sample_window = EmptyString /\
    Tasmotizer.start_process sample_window = Tasmotizer.ImagePathMissing) \/
   (exists d,
      Tasmotizer.start_process sample_window =
        Tasmotizer.Dialog (VStr (Tasmotizer.file sample_window)) d /\
      ((ProcessDialog.startswith_http (VStr (Tasmotizer.file sample_window))
          = true /\
        ProcessDialog.esp d = None /\
        ProcessDialog.bin_request d =
          Some (VStr (Tasmotizer.file sample_window))) \/
       (exists wk, ProcessDialog.esp d = Some wk /\
          ESPWorker.has_action "write" wk = true /\
          ESPWorker._params wk !! "file_path" =
            Some (VStr (Tasmotizer.file sample_window)))))).
Proof.
  split; [reflexivity |].
  exact (file_mode_always_writes sample_window eq_refl).
Defined.

Lemma empty_image_box_witness :
  (Tasmotizer.mode sample_release_window = 1 \/
   Tasmotizer.mode sample_release_window = 2) /\
  Tasmotizer.cbHackboxBin sample_release_window = VNone /\
  Tasmotizer.cbBackup sample_release_window = false /\
  Tasmotizer.cbErase sample_release_window = true /\
  exists d wk,
    Tasmotizer.start_process sample_release_window =
      Tasmotizer.Dialog VNone d /\
    ProcessDialog.esp d = Some wk /\
    forall now flag o1 o2,
      ESPWorker.trace now [ESPWorker.Work o1; ESPWorker.Work o2]
                      (ESPWorker.start wk flag) = [ESPWorker.DoneSignal].
Proof.
  assert (Hm : Tasmotizer.mode sample_release_window = 1 \/
               Tasmotizer.mode sample_release_window = 2)
    by (left; reflexivity).
  split; [exact Hm |]. do 3 (split; [reflexivity |]).
  exact (empty_image_box_runs_nothing sample_release_window Hm
           eq_refl eq_refl).
Defined.

(** ** The serial terminal *)

Section Terminal.

Import CommandDialog.

Lemma split_acc_run (cur run rest : text) :
  Forall (fun c => isspace c = false) run ->
  split_acc cur (run ++ rest) = split_acc (cur ++ run) rest.
Proof.
  intros H. revert cur. induction H as [| c run Hc _ IH]; intros cur.
  - rewrite app_nil_r. reflexivity.
  - cbn [app split_acc]. rewrite Hc, IH, <- app_assoc. reflexivity.
Qed.

Lemma split_acc_blank (cur blank : text) :
  Forall (fun c => isspace c = true) blank ->
  split_acc cur blank = match cur with [] => [] | _ => [cur] end.
Proof.
  intros H. revert cur. induction H as [| c blank Hc _ IH]; intros cur;
    [reflexivity |].
  cbn [split_acc]. rewrite Hc. destruct cur; [exact (IH []) |].
  rewrite (IH []). reflexivity.
Qed.

Lemma split_acc_words (s cur : text) :
  Forall (fun c => isspace c = false) cur ->
  Forall word (split_acc cur s).
Proof.
  revert cur. induction s as [| c s IH]; intros cur Hcur; cbn [split_acc].
  - destruct cur; constructor; [| constructor].
    split; [discriminate | exact Hcur].
  - destruct (isspace c) eqn:Ec.
    + destruct cur as [| x cur]; [apply IH; constructor |].
      constructor; [split; [discriminate | exact Hcur] |].
      apply IH. constructor.
    + apply IH. apply Forall_app. split; [exact Hcur |].
      constructor; [exact Ec | constructor].
Qed.

(** Cutting the joined words, followed by white space only, gives the
    words back. *)
Lemma split_join (ws : list text) (blank : text) :
  Forall word ws -> Forall (fun c => isspace c = true) blank ->
  split (join ws ++ blank) = ws.
Proof.
  intros Hws Hblank. unfold split.
  induction Hws as [| w ws [Hne Hw] Hrest IH]; cbn [join].
  - cbn [app]. rewrite (split_acc_blank [] blank Hblank). reflexivity.
  - destruct ws as [| w2 ws].
    + rewrite (split_acc_run [] w blank Hw). cbn [app].
      rewrite (split_acc_blank w blank Hblank).
      destruct w; [contradiction | reflexivity].
    + rewrite <- app_assoc. rewrite (split_acc_run [] w _ Hw).
      cbn [app split_acc].
      change (isspace space) with true. cbv iota.
      rewrite IH. destruct w; [contradiction | reflexivity].
Qed.

Lemma join_chars (ws : list text) (c : N) :
  In c (join ws) -> c = space \/ exists w, In w ws /\ In c w.
Proof.
  induction ws as [| w ws IH]; cbn [join]; [contradiction |].
  destruct ws as [| w2 ws].
  - intros H. right. exists w. split; [left; reflexivity | exact H].
  - intros H. apply in_app_or in H as [H | [H | H]].
    + right. exists w. split; [left; reflexivity | exact H].
    + left. symmetry. exact H.
    + destruct (IH H) as [-> | (w' & Hw' & Hc)]; [left; reflexivity |].
      right. exists w'. split; [right; exact Hw' | exact Hc].
Qed.

(** X20. A command of several lines is sent as one line: what
    [sendCommand] writes ends with a line feed, and before it every
    white space character is a plain space; line feeds, tabs and the
    other white space of the text are gone. *)
Theorem multi_line_command_is_sent_as_one_line (s : text) :
  exists body,
    formatted s = body ++ [line_feed] /\
    forall c, In c body -> isspace c = true -> c = space.
Proof.
  exists (join (split s)). split; [reflexivity |].
  intros c Hin Hsp.
  destruct (join_chars _ _ Hin) as [-> | (w & Hw & Hc)]; [reflexivity |].
  pose proof (split_acc_words s [] (List.Forall_nil _)) as Hwords.
  rewrite List.Forall_forall in Hwords.
  destruct (Hwords w Hw) as [_ Hclean].
  rewrite List.Forall_forall in Hclean.
  rewrite (Hclean c Hc) in Hsp. discriminate.
Qed.

(** X21. Formatting is idempotent: sending what was sent sends the same
    bytes again, so the words of a written line are separated by single
    spaces, with none before the first word or after the last. *)
Theorem formatting_is_idempotent (s : text) :
  formatted (formatted s) = formatted s.
Proof.
  unfold formatted.
  rewrite (split_join (split s) [line_feed]); [reflexivity | |].
  - apply split_acc_words. constructor.
  - repeat constructor.
Qed.

(** X22. A text of white space only is not empty: [sendCommand] does not
    say that there is nothing to send but writes a bare line feed. *)
Theorem blank_command_sends_a_line_feed (s : text) :
  s <> [] -> Forall (fun c => isspace c = true) s ->
  sendCommand s true = Written [line_feed].
Proof.
  intros Hne Hblank. destruct s as [| c s]; [contradiction |].
  unfold sendCommand, formatted, split.
  rewrite (split_acc_blank [] _ Hblank). reflexivity.
Qed.

Lemma ascii_is_utf8 (chunk : list byte) :
  Forall (fun b => in_range 0 127 b = true) chunk -> utf8_valid chunk = true.
Proof.
  intros H. induction H as [| b chunk Hb _ IH]; [reflexivity |].
  cbn [utf8_valid]. rewrite Hb. exact IH.
Qed.

(** X23. Output made of ASCII bytes never makes [readFromPort] raise,
    however it is cut: each chunk that is not empty is appended to the
    console as a paragraph of its own, and an empty one adds nothing. *)
Theorem ascii_output_is_shown (chunks : list (list byte)) (c : console) :
  Forall (Forall (fun b => in_range 0 127 b = true)) chunks ->
  receive chunks c =
    (c ++ map string_of_list_byte
            (List.filter (fun ch => negb (Nat.eqb (length ch) 0)) chunks),
     inr tt).
Proof.
  intros H. revert c. induction H as [| chunk chunks Hch _ IH]; intros c.
  - cbn. rewrite app_nil_r. reflexivity.
  - cbn [receive]. unfold bind, readFromPort.
    destruct chunk as [| b chunk]; [exact (IH c) |].
    unfold decode_utf8. rewrite (ascii_is_utf8 _ Hch).
    unfold modify. rewrite IH. cbn [List.filter length Nat.eqb negb map].
    rewrite <- app_assoc. reflexivity.
Qed.

End Terminal.

Lemma blank_command_witness :
  let s : CommandDialog.text := [32; 10; 9]%N in
  s <> [] /\
  Forall (fun c => CommandDialog.isspace c = true) s /\
  CommandDialog.sendCommand s true =
    CommandDialog.Written [CommandDialog.line_feed].
Proof.
  intros s.
  assert (Hne : s <> []) by discriminate.
  assert (Hb : Forall (fun c => CommandDialog.isspace c = true) s).
  { repeat (apply List.Forall_cons; [reflexivity |]). apply List.Forall_nil. }
  split; [exact Hne | split; [exact Hb |]].
  exact (blank_command_sends_a_line_feed s Hne Hb).
Defined.

Lemma ascii_output_witness :
  let chunks := [sample_prefix; []; sample_suffix] in
  Forall (Forall (fun b => in_range 0 127 b = true)) chunks /\
  CommandDialog.receive chunks [] =
    ([] ++ map string_of_list_byte
             (List.filter (fun ch => negb (Nat.eqb (length ch) 0)) chunks),
     inr tt).
Proof.
  intros chunks.
  assert (H : Forall (Forall (fun b => in_range 0 127 b = true)) chunks).
  { repeat (apply List.Forall_cons;
            [repeat (apply List.Forall_cons; [reflexivity |]);
             apply List.Forall_nil |]).
    apply List.Forall_nil. }
  split; [exact H |].
  exact (ascii_output_is_shown chunks [] H).
Defined.

(** ** Inputs for the lemmas on the close counter and the backup size *)

Lemma close_counter_witness :
  let d := fst (PinConfigDialog.read_json _ MiniJson.loads [x7d; x7b]
                  (PinConfigDialog.initial MiniJson.json)) in
  let chunk := [x7d; x7d] in
  PinConfigDialog.brackets d !! "{" = Some 1 /\
  PinConfigDialog.brackets d !! "}" = Some 1 /\
  0 < 1 /\
  PinConfigDialog.close_count
    (fst (PinConfigDialog.read_json _ MiniJson.loads chunk d)) =
    Some (count_byte bracket_close chunk).
Proof.
  intros d chunk.
  assert (Ho : PinConfigDialog.brackets d !! "{" = Some 1)
    by (vm_compute; reflexivity).
  assert (Hc : PinConfigDialog.brackets d !! "}" = Some 1)
    by (vm_compute; reflexivity).
  assert (Hpos : 0 < 1) by lia.
  split; [exact Ho | split; [exact Hc | split; [exact Hpos |]]].
  exact (close_counter_restarts _ MiniJson.loads d chunk 1 1 Ho Hc Hpos).
Defined.

Lemma backup_size_witness :
  (2 <= 3)%N /\
  size_in_bytes (ProcessDialog.backup_size_param 2) = (2 ^ 2 * 1048576)%N.
Proof.
  assert (H : (2 <= 3)%N) by lia.
  split; [exact H |].
  exact (backup_size_param_upto_8MB 2 H).
Defined.
